(** * onedrivefs: a read-only [fs.FS] over the OneDrive API

    A shallow embedding of the Go package [onedrivefs] (fs.go, file.go,
    onedrive.go, errors.go) and the properties of its specification.

    Conventions of the embedding.
    - Go strings are [string]; bytes are [ascii]; [int], [int64] and
      [fs.FileMode] are [Z].
    - A Go function returning [(T, error)] returns a [result T]; a run-time
      panic (nil dereference, index out of range, a count handed to
      [bytes.Buffer.Grow] that is negative or too large) is the outcome
      [Panic].
    - The network is explicit state: the [World] is the log of the HTTP
      requests issued so far, and the answer of a client to a request is a
      function of that log and of the request (class [Remote]).
    - JSON decoding is a collaborator of the package; it is a field of
      [Remote].  A pointer is an [option]: the elements of a decoded
      listing are [*driveItem], nil for a JSON [null].
    - The memory of the process is a collaborator too: whether a
      [bytes.Buffer] can make room is a field of [Remote].
    - [path/filepath] is the Unix one (separator [/]). *)

From Stdlib Require Import ZArith List Bool Ascii String Lia.
From Stdlib Require Import Sorted Permutation OrderedTypeEx.
Import ListNotations.

Local Open Scope Z_scope.
Local Open Scope string_scope.

(** ** Strings: the functions of [strings] the package calls *)

Module strings.

Definition HasPrefix (s pre : string) : bool := String.prefix pre s.

Definition TrimPrefix (s pre : string) : string :=
  if HasPrefix s pre
  then String.substring (String.length pre) (String.length s - String.length pre) s
  else s.

Fixpoint Contains (s sub : string) : bool :=
  String.prefix sub s
  || match s with
     | EmptyString => false
     | String _ s' => Contains s' sub
     end.

(** [strings.Compare]: bytewise lexicographic order. *)
Definition Compare (a b : string) : comparison := String.compare a b.

Fixpoint Join (l : list string) (sep : string) : string :=
  match l with
  | [] => ""
  | [x] => x
  | x :: rest => x ++ sep ++ Join rest sep
  end.

End strings.

(** ** Path cleaning: [path/filepath] on Unix *)

Module filepath.

Definition Separator : ascii := "/"%char.
Definition isSep (c : ascii) : bool := Ascii.eqb c Separator.
Definition isDot (c : ascii) : bool := Ascii.eqb c "."%char.

Definition IsAbs (path : string) : bool := strings.HasPrefix path "/".

Definition endOrSep (rest : list ascii) : bool :=
  match rest with
  | [] => true
  | c :: _ => isSep c
  end.

(** The bytes of one path element, and what follows it. *)
Fixpoint element (path : list ascii) : list ascii * list ascii :=
  match path with
  | [] => ([], [])
  | c :: rest =>
      if isSep c then ([], path)
      else let (e, r) := element rest in (c :: e, r)
  end.

(** The output buffer is kept reversed: its head is the byte written
    last, and [out.w] is its length.  [unwind c out dotdot] is the loop
    [for out.w > dotdot && !IsPathSeparator(out.index(out.w)) { out.w-- }]
    where [c] is the byte at index [out.w]. *)
Fixpoint unwind (c : ascii) (out : list ascii) (dotdot : nat) : list ascii :=
  match out with
  | [] => []
  | c' :: out' =>
      if Nat.ltb dotdot (List.length out) && negb (isSep c)
      then unwind c' out' dotdot
      else out
  end.

Definition backtrack (out : list ascii) (dotdot : nat) : list ascii :=
  match out with
  | [] => []
  | c :: out' => unwind c out' dotdot
  end.

(** The main loop of [Clean]; every iteration consumes at least one byte
    of [path], so [length path] iterations are enough. *)
Fixpoint cleanLoop (fuel : nat) (rooted : bool) (path out : list ascii)
         (dotdot : nat) : list ascii :=
  match fuel with
  | O => out
  | S fuel' =>
      match path with
      | [] => out
      | c :: rest =>
          if isSep c then
            (* empty path element *)
            cleanLoop fuel' rooted rest out dotdot
          else if isDot c && endOrSep rest then
            (* . element *)
            cleanLoop fuel' rooted rest out dotdot
          else if isDot c
                  && match rest with
                     | d :: rest2 => isDot d && endOrSep rest2
                     | [] => false
                     end then
            (* .. element: remove to last separator *)
            let rest2 := List.tl rest in
            if Nat.ltb dotdot (List.length out) then
              cleanLoop fuel' rooted rest2 (backtrack out dotdot) dotdot
            else if negb rooted then
              let out1 := if Nat.ltb 0 (List.length out)
                          then Separator :: out else out in
              let out2 := "."%char :: "."%char :: out1 in
              cleanLoop fuel' rooted rest2 out2 (List.length out2)
            else
              cleanLoop fuel' rooted rest2 out dotdot
          else
            (* real path element: add slash if needed, copy element *)
            let w := List.length out in
            let out1 :=
              if (rooted && negb (Nat.eqb w 1)) || (negb rooted && negb (Nat.eqb w 0))
              then Separator :: out else out in
            let (e, rest') := element path in
            cleanLoop fuel' rooted rest' (List.rev e ++ out1)%list dotdot
      end
  end.

Definition Clean (path : string) : string :=
  let p := list_ascii_of_string path in
  match p with
  | [] => "."
  | c :: rest =>
      let rooted := isSep c in
      let out :=
        if rooted
        then cleanLoop (List.length p) rooted rest [Separator] 1
        else cleanLoop (List.length p) rooted p [] 0 in
      match out with
      | [] => "."
      | _ => string_of_list_ascii (List.rev out)
      end
  end.

End filepath.

(** ** URLs: the functions of [net/url] the package calls *)

Module url.

Inductive encoding := encodePathSegment | encodeQueryComponent.

Definition between (lo c hi : ascii) : bool :=
  (N.leb (N_of_ascii lo) (N_of_ascii c)) && (N.leb (N_of_ascii c) (N_of_ascii hi)).

Definition oneOf (c : ascii) (set : string) : bool :=
  List.existsb (Ascii.eqb c) (list_ascii_of_string set).

(** [shouldEscape] of net/url (RFC 3986), for the two modes in use. *)
Definition shouldEscape (c : ascii) (mode : encoding) : bool :=
  if between "a" c "z" || between "A" c "Z" || between "0" c "9" then false
  else if oneOf c "-_.~" then false
  else if oneOf c "$&+,/:;=?@" then
    match mode with
    | encodePathSegment => oneOf c "/;,?"
    | encodeQueryComponent => true
    end
  else true.

Definition upperhex : string := "0123456789ABCDEF".

Definition hexDigit (n : N) : ascii :=
  match String.get (N.to_nat n) upperhex with
  | Some d => d
  | None => "0"%char
  end.

Definition escapeByte (c : ascii) (mode : encoding) : list ascii :=
  if shouldEscape c mode then
    if Ascii.eqb c " "%char
       && match mode with encodeQueryComponent => true | _ => false end
    then ["+"%char]
    else ["%"%char;
          hexDigit (N.shiftr (N_of_ascii c) 4);
          hexDigit (N.land (N_of_ascii c) 15)]
  else [c].

Definition escape (s : string) (mode : encoding) : string :=
  string_of_list_ascii
    (List.flat_map (fun c => escapeByte c mode) (list_ascii_of_string s)).

Definition PathEscape (s : string) : string := escape s encodePathSegment.
Definition QueryEscape (s : string) : string := escape s encodeQueryComponent.

(** [url.Values.Encode] for values given with their keys in sorted
    order: [key=value] pairs joined by [&]. *)
Definition Values := list (string * list string).

Definition Encode (v : Values) : string :=
  strings.Join
    (List.flat_map
       (fun kv => List.map (fun x => QueryEscape (fst kv) ++ "=" ++ QueryEscape x)
                           (snd kv))
       v)
    "&".

(** [url.URL], with the path in its escaped form. *)
Record URL := mkURL {
  Scheme : string;
  Host : string;
  Path : string;
  RawQuery : string
}.

Definition String_ (u : URL) : string :=
  Scheme u ++ "://" ++ Host u ++ Path u
  ++ (if String.eqb (RawQuery u) "" then "" else "?" ++ RawQuery u).

(** Splitting at every [/], as the [strings.Cut] loop of [resolvePath]. *)
Fixpoint splitSlash (cur : list ascii) (s : list ascii) : list string :=
  match s with
  | [] => [string_of_list_ascii (List.rev cur)]
  | c :: rest =>
      if Ascii.eqb c "/"%char
      then string_of_list_ascii (List.rev cur) :: splitSlash [] rest
      else splitSlash (c :: cur) rest
  end.

(** [str[:LastIndexByte(str, '/')]], or [None] when [str] has no [/]. *)
Fixpoint uptoLastSlash (s : list ascii) : option (list ascii) :=
  match s with
  | [] => None
  | c :: rest =>
      match uptoLastSlash rest with
      | Some pre => Some (c :: pre)
      | None => if Ascii.eqb c "/"%char then Some [] else None
      end
  end.

(** The loop of [resolvePath]: [dst] is the builder without the leading
    [/] it always starts with. *)
Fixpoint resolveLoop (elems : list string) (dst : list ascii) (first : bool)
  : list ascii :=
  match elems with
  | [] => dst
  | elem :: rest =>
      if String.eqb elem "." then resolveLoop rest dst false
      else if String.eqb elem ".." then
        match uptoLastSlash dst with
        | None => resolveLoop rest [] true
        | Some pre => resolveLoop rest pre first
        end
      else
        let dst1 := if first then dst else (dst ++ ["/"%char])%list in
        resolveLoop rest (dst1 ++ list_ascii_of_string elem)%list false
  end.

Definition resolvePath (base ref : string) : string :=
  let b := list_ascii_of_string base in
  let full :=
    match list_ascii_of_string ref with
    | [] => b
    | c :: _ =>
        if Ascii.eqb c "/"%char then list_ascii_of_string ref
        else
          match uptoLastSlash b with
          | Some pre => (pre ++ ["/"%char] ++ list_ascii_of_string ref)%list
          | None => list_ascii_of_string ref
          end
    end in
  match full with
  | [] => ""
  | _ =>
      let elems := splitSlash [] full in
      let last := List.last elems "" in
      let dst := resolveLoop elems [] true in
      let dst := if String.eqb last "." || String.eqb last ".."
                 then (dst ++ ["/"%char])%list else dst in
      let r := "/"%char :: dst in
      match r with
      | _ :: ("/"%char :: _) as r' => string_of_list_ascii r'
      | _ => string_of_list_ascii r
      end
  end.

End url.

(** ** Data model *)

(** [time.Time] as an instant; [zeroTime] is the zero value. *)
Definition Time := Z.
Definition zeroTime : Time := 0.

(** [http.Header]. *)
Definition Header := list (string * list string).

(** errors.go *)
Definition ItemNotFoundErrorCode : string := "itemNotFound".
Definition ActivityLimitReachedErrorCode : string := "activityLimitReached".

Record InnerError := mkInnerError {
  Date : string;
  RequestID : string;
  ClientRequestID : string
}.

Record OneDriveAPIError := mkAPIError {
  Code : string;
  Message : string;
  LocalizedMessage : string;
  InnerError_ : option InnerError;
  ResponseHeader : Header
}.

(** Go [error] values.  [ErrAPI] is a [*OneDriveAPIError]; [ErrString] is
    made by [errors.New] or [fmt.Errorf]; [ErrWrap] stands for the errors of
    a transport that wrap another one (such as [*url.Error]); [ErrOpaque]
    for those that wrap nothing (a cancelled context, a JSON syntax
    error). *)
Inductive error :=
| ErrAPI (e : OneDriveAPIError)
| ErrString (msg : string)
| ErrNotExist
| ErrInvalid
| EOF
| PathError (op path : string) (err : error)
| ErrWrap (what : string) (err : error)
| ErrOpaque (what : string).

(** [errors.As(err, &odErr)] for a target of type [*OneDriveAPIError]:
    the first error of that type along the [Unwrap] chain. *)
Fixpoint errors_As (err : error) : option OneDriveAPIError :=
  match err with
  | ErrAPI e => Some e
  | PathError _ _ inner => errors_As inner
  | ErrWrap _ inner => errors_As inner
  | _ => None
  end.

(** The [Error] method of [OneDriveAPIError]. *)
Definition APIError_Error (e : OneDriveAPIError) : string :=
  match InnerError_ e with
  | Some ie => Code e ++ " - " ++ Message e ++ " (" ++ Date ie ++ ")"
  | None => Code e ++ " - " ++ Message e
  end.

(** Outcome of a call: a value, a returned error, or a panic. *)
Inductive result (A : Type) :=
| Ok (a : A)
| Err (e : error)
| Panic (msg : string).
Arguments Ok {A} a.
Arguments Err {A} e.
Arguments Panic {A} msg.

(** onedrive.go: [driveItem].  [Folder] and [Root] are pointers to an
    empty struct, tested for presence only. *)
Record driveItem := mkItem {
  ID : string;
  Name : string;
  DownloadURL : string;
  Description : string;
  Folder : option unit;
  Root : option unit;
  Size : Z;
  CreatedDateTime : Time;
  LastModifiedDateTime : Time
}.

(** [DriveItems] is a [[]*driveItem]: an element is nil when the array
    of the body holds a JSON [null] there. *)
Record driveItemsResponse := mkItems {
  ODataContext : string;
  Count : Z;
  DriveItems : list (option driveItem)
}.

Definition isSome {A} (o : option A) : bool :=
  match o with Some _ => true | None => false end.

(** file.go: [fileInfo] and its accessors. *)
Record fileInfo := mkInfo {
  name : string;
  size : Z;
  mode : Z;
  modTime : Time;
  isDir : bool
}.

(** [fs.ModeDir] is the top bit of the 32-bit [fs.FileMode]. *)
Definition ModeDir : Z := Z.shiftl 1 31.
Definition ModePerm : Z := 511.

Record dirEntry := mkEntry { entryInfo : fileInfo }.

Definition dirEntry_Name (d : dirEntry) : string := name (entryInfo d).
Definition dirEntry_IsDir (d : dirEntry) : bool := isDir (entryInfo d).
Definition dirEntry_Info (d : dirEntry) : result fileInfo := Ok (entryInfo d).

(** ** The remote service and the HTTP clients *)

Record Request := mkRequest {
  Method : string;
  URL : url.URL
}.

Record Response (Body : Type) := mkResponse {
  StatusCode : Z;
  Status : string;
  RespHeader : Header;
  RespBody : Body
}.
Arguments mkResponse {Body} _ _ _ _.
Arguments StatusCode {Body} _.
Arguments Status {Body} _.
Arguments RespHeader {Body} _.
Arguments RespBody {Body} _.

(** Which client sent a request: the authenticated one the caller gave to
    [OpenFS], or the fresh [&http.Client{}] that [Open] downloads with. *)
Inductive clientKind := Authenticated | Fresh.

(** The log of the requests issued so far, oldest first. *)
Definition World := list (clientKind * Request).

(** What the package does not implement: the transport (which also
    carries the context: a cancelled or expired context shows as an error
    of [clientDo]), JSON decoding, and the bytes of a response body.
    - [decodeError] is [json.Decode] into [struct{ Error *OneDriveAPIError }]:
      [None] when decoding fails, [Some None] when the body has no error
      object;
    - [decodeItem] and [decodeItems] are [json.Decode] into a nil
      [*driveItem] and [*driveItemsResponse]: [inr None] when the body is
      the JSON [null], which leaves the pointer nil;
    - [bodyBytes] is the byte stream of a body: its bytes, then end of file
      ([None]) or a read error;
    - [parseDownloadURL] is the parsing of the download URL in
      [http.NewRequestWithContext];
    - [canGrow m n] tells whether a [bytes.Buffer] that holds [m] bytes
      can make room for [n] more; when it cannot, the buffer panics with
      [bytes.ErrTooLarge]. *)
Class Remote := {
  Body : Type;
  clientDo : clientKind -> World -> Request -> error + Response Body;
  decodeError : Body -> option (option OneDriveAPIError);
  decodeItem : Body -> error + option driveItem;
  decodeItems : Body -> error + option driveItemsResponse;
  bodyBytes : Body -> list ascii * option error;
  parseDownloadURL : string -> error + url.URL;
  canGrow : Z -> Z -> bool
}.

(** ** onedrive.go *)

Definition baseURL : url.URL :=
  url.mkURL "https" "graph.microsoft.com" "/v1.0/" "".

(** [newRequest]: the reference is resolved against [baseURL].  The
    references of this package are made of constant segments and of
    [url.PathEscape] output, which [url.Parse] accepts and whose escaped
    path it keeps, so that no error is returned. *)
Definition newRequest (method relativeURL : string) : result Request :=
  Ok (mkRequest method
        (url.mkURL (url.Scheme baseURL) (url.Host baseURL)
                   (url.resolvePath (url.Path baseURL) relativeURL) "")).

Section WithRemote.

Context {R : Remote}.

(** [client.Do(req)]: the request is logged and answered. *)
Definition Do (k : clientKind) (w : World) (req : Request)
  : World * (error + Response Body) :=
  ((w ++ [(k, req)])%list, clientDo k w req).

(** [doRequest]: [decode] is [json.Decode] into [target], a pointer to a
    nil pointer; the value is [None] when the target is left nil. *)
Definition doRequest {T : Type} (decode : Body -> error + option T)
           (w : World) (req : Request) : World * result (option T) :=
  match Do Authenticated w req with
  | (w', inl err) => (w', Err err)
  | (w', inr resp) =>
      if (StatusCode resp >=? 400)%Z then
        match decodeError (RespBody resp) with
        | None => (w', Err (ErrString ("unexpected error: " ++ Status resp)))
        | Some (Some apiErr) =>
            (w', Err (ErrAPI (mkAPIError (Code apiErr) (Message apiErr)
                                         (LocalizedMessage apiErr)
                                         (InnerError_ apiErr)
                                         (RespHeader resp))))
        | Some None => (w', Err (ErrString ("unexpected error: " ++ Status resp)))
        end
      else if negb (StatusCode resp =? 204)%Z then
        match decode (RespBody resp) with
        | inl err => (w', Err err)
        | inr v => (w', Ok v)
        end
      else (w', Ok None)
  end.

(** The reference [apiURL] that [getDriveItemsByPath] builds. *)
Definition getDriveItemsByPath_URL (driveID itemPath : string) : string :=
  let apiURL := "me/drive/root" in
  let apiURL :=
    if negb (String.eqb driveID "")
    then "/v1.0/drives/" ++ url.PathEscape driveID ++ "/root"
    else apiURL in
  if negb (String.eqb itemPath "")
  then apiURL ++ ":/" ++ url.PathEscape itemPath
  else apiURL.

Definition getDriveItemsByPath (w : World) (driveID itemPath : string)
  : World * result (option driveItem) :=
  match newRequest "GET" (getDriveItemsByPath_URL driveID itemPath) with
  | Ok req => doRequest decodeItem w req
  | Err err => (w, Err err)
  | Panic m => (w, Panic m)
  end.

(** The reference [apiURL] that [listDriveItems] builds. *)
Definition listDriveItems_URL (driveID folderID : string) : string :=
  let apiURL := "me/drive/root/children" in
  let apiURL :=
    if negb (String.eqb folderID "")
    then "me/drive/items/" ++ url.PathEscape folderID ++ "/children"
    else apiURL in
  if negb (String.eqb driveID "") then
    if negb (String.eqb folderID "")
    then "me/drives/" ++ url.PathEscape driveID ++ "/items/"
         ++ url.PathEscape folderID ++ "/children"
    else "me/drives/" ++ url.PathEscape driveID ++ "/root/children"
  else apiURL.

(** The request [listDriveItems] sends: [newRequest], then the query
    [$orderby=name asc] in [req.URL.RawQuery]. *)
Definition listDriveItems_Request (driveID folderID : string) : result Request :=
  match newRequest "GET" (listDriveItems_URL driveID folderID) with
  | Ok req =>
      Ok (mkRequest (Method req)
            (url.mkURL (url.Scheme (URL req)) (url.Host (URL req))
                       (url.Path (URL req))
                       (url.Encode [("$orderby", ["name asc"])])))
  | other => other
  end.

Definition listDriveItems (w : World) (driveID folderID : string)
  : World * result (option driveItemsResponse) :=
  match listDriveItems_Request driveID folderID with
  | Ok req => doRequest decodeItems w req
  | Err err => (w, Err err)
  | Panic m => (w, Panic m)
  end.

End WithRemote.

(** ** file.go *)

(** [slices.SortFunc] with a comparison: an insertion sort stands for it.
    Go's sort is not stable; the properties state of a sorted batch only
    that it is a sorted rearrangement of its input, which determines it when
    the names are pairwise distinct. *)
Module slices.

Section Sort.
Variable A : Type.
Variable cmp : A -> A -> comparison.

Fixpoint insert (x : A) (l : list A) : list A :=
  match l with
  | [] => [x]
  | y :: rest =>
      match cmp x y with
      | Gt => y :: insert x rest
      | _ => x :: l
      end
  end.

Definition SortFunc (l : list A) : list A := List.fold_right insert [] l.
End Sort.

Arguments insert {A} cmp x l.
Arguments SortFunc {A} cmp l.

End slices.

Record DriveOpts := mkOpts { DriveID : string }.

(** [FS]: its client is the [Authenticated] client of the [Remote], and
    its context travels with the transport. *)
Record FS := mkFS { opts : DriveOpts }.

Record openFile := mkOpenFile {
  file_info : fileInfo;
  data : list ascii * option error
}.

Record openDir := mkOpenDir {
  dir_info : fileInfo;
  dir_fs : FS;
  dirID : string;
  driveID : string;
  getItemsOnce : bool;
  items : list (option driveItem);
  offset : Z
}.

(** The two implementations of [fs.File]. *)
Inductive File :=
| DirFile (d : openDir)
| RegFile (f : openFile).

Definition cmpName (a b : dirEntry) : comparison :=
  strings.Compare (dirEntry_Name a) (dirEntry_Name b).

(** [d.items[i]] *)
Definition index {A} (l : list A) (i : Z) : option A :=
  if (i <? 0)%Z then None else List.nth_error l (Z.to_nat i).

(** The entry [ReadDir] builds for an item. *)
Definition entryOf (item : driveItem) : dirEntry :=
  let mode := 365 (* 0o555 *) in
  let mode := if isSome (Folder item) then Z.lor mode ModeDir else mode in
  mkEntry (mkInfo (Name item) (Size item) mode (LastModifiedDateTime item)
                  (isSome (Folder item))).

(** The loop [for i := range list] started at index [i] with [k] slots
    left.  It cannot return an error; it panics, with the message on the
    left, when an index is out of range, and on [item.Folder] when the
    item is nil. *)
Fixpoint fillEntries (its : list (option driveItem)) (off i : Z) (k : nat)
  : string + list dirEntry :=
  match k with
  | O => inr []
  | S k' =>
      match index its (off + i) with
      | None => inl "index out of range"
      | Some None => inl "nil pointer dereference"
      | Some (Some item) =>
          match fillEntries its off (i + 1) k' with
          | inr rest => inr (entryOf item :: rest)
          | inl m => inl m
          end
      end
  end.

Definition withItems (d : openDir) (once : bool) (its : list (option driveItem))
  : openDir :=
  mkOpenDir (dir_info d) (dir_fs d) (dirID d) (driveID d) once its (offset d).

Definition withOffset (d : openDir) (off : Z) : openDir :=
  mkOpenDir (dir_info d) (dir_fs d) (dirID d) (driveID d) (getItemsOnce d)
            (items d) off.

(** What [ReadDir] finds in its variable [err] after the [sync.Once]:
    nil, an error, or a panic on the way. *)
Inductive onceOutcome :=
| ErrNil
| ErrSet (err : error)
| Panicked (msg : string).

Section Handles.

Context {R : Remote}.

(** [d.getItemsOnce.Do(func() { ... })] and the value of the local
    variable [err] after it.  The function runs only when the
    [sync.Once] has not fired; a panic inside it (the nil response of a
    204 or of a JSON [null]) still counts as its having run. *)
Definition getItems (w : World) (d : openDir) : World * openDir * onceOutcome :=
  if getItemsOnce d then (w, d, ErrNil)
  else
    match listDriveItems w (driveID d) (dirID d) with
    | (w', Err err) => (w', withItems d true (items d), ErrSet err)
    | (w', Ok (Some resp)) => (w', withItems d true (DriveItems resp), ErrNil)
    | (w', Ok None) =>
        (w', withItems d true (items d), Panicked "nil pointer dereference")
    | (w', Panic m) => (w', withItems d true (items d), Panicked m)
    end.

Definition openDir_ReadDir (w : World) (d : openDir) (count : Z)
  : World * openDir * result (list dirEntry) :=
  match getItems w d with
  | (w', d', Panicked m) => (w', d', Panic m)
  | (w', d', ErrSet err) => (w', d', Err err)
  | (w', d', ErrNil) =>
      let n := (Z.of_nat (List.length (items d')) - offset d')%Z in
      if (n =? 0)%Z && (count >? 0)%Z then (w', d', Err EOF)
      else
        let n := if (count >? 0)%Z && (n >? count)%Z then count else n in
        if (n <? 0)%Z then (w', d', Panic "makeslice: len out of range")
        else
          match fillEntries (items d') (offset d') 0 (Z.to_nat n) with
          | inl m => (w', d', Panic m)
          | inr list =>
              (w', withOffset d' (offset d' + n),
               Ok (slices.SortFunc cmpName list))
          end
  end.

Definition openDir_Stat (d : openDir) : result fileInfo := Ok (dir_info d).

(** [openDir.Read]: [(0, &fs.PathError{...})]. *)
Definition openDir_Read (d : openDir) : list ascii * option error :=
  ([], Some (PathError "read" (name (dir_info d)) ErrInvalid)).

Definition openFile_Stat (f : openFile) : result fileInfo := Ok (file_info f).

(** [openFile.Read] into a buffer of [n] bytes: the next bytes of the
    body, and at its end [io.EOF] or the error of the stream. *)
Definition openFile_Read (f : openFile) (n : nat)
  : openFile * (list ascii * option error) :=
  match fst (data f) with
  | [] => (f, ([], Some match snd (data f) with
                        | Some e => e
                        | None => EOF
                        end))
  | bytes =>
      (mkOpenFile (file_info f) (List.skipn n bytes, snd (data f)),
       (List.firstn n bytes, None))
  end.

Definition File_Stat (file : File) : result fileInfo :=
  match file with
  | DirFile d => openDir_Stat d
  | RegFile f => openFile_Stat f
  end.

Definition File_Read (file : File) (n : nat) : File * (list ascii * option error) :=
  match file with
  | DirFile d => (file, openDir_Read d)
  | RegFile f => let (f', r) := openFile_Read f n in (RegFile f', r)
  end.

End Handles.

(** ** fs.go *)

Definition OpenFS (o : DriveOpts) : result FS := Ok (mkFS o).

Definition validatePath (path : string) : option error :=
  if filepath.IsAbs path then
    Some (ErrString "absolute paths are not allowed")
  else if negb (String.eqb (filepath.Clean path) path) then
    Some (ErrString "relative path elements are not allowed")
  else if strings.Contains path "\" then
    Some (ErrString "backslashes are not allowed in path")
  else None.

(** [int] is 64 bits wide: [int(x)] for an [int64] wraps to that width. *)
Definition intBits : Z := 64.
Definition toInt (x : Z) : Z :=
  ((x + 2 ^ (intBits - 1)) mod 2 ^ intBits - 2 ^ (intBits - 1))%Z.

(** [bytes.MinRead], the least room [ReadFrom] offers to each [Read]. *)
Definition MinRead : nat := 512.

Section Facade.

Context {R : Remote}.

Definition Open (f : FS) (w : World) (origName : string) : World * result File :=
  let name0 := origName in
  match validatePath name0 with
  | Some err => (w, Err (PathError "open" name0 err))
  | None =>
      (* no working directory, start from the root *)
      let name1 := if String.eqb name0 "." then "/" else name0 in
      let itemPath := strings.TrimPrefix name1 "/" in
      match getDriveItemsByPath w (DriveID (opts f)) itemPath with
      | (w', Panic m) => (w', Panic m)
      | (w', Err err) =>
          match errors_As err with
          | Some odErr =>
              if String.eqb (Code odErr) ItemNotFoundErrorCode
              then (w', Err ErrNotExist)
              else (w', Err err)
          | None => (w', Err err)
          end
      | (w', Ok None) => (w', Panic "nil pointer dereference")
      | (w', Ok (Some item)) =>
          if isSome (Folder item) then
            let name2 := if isSome (Root item) then "." else Name item in
            (w', Ok (DirFile
                       (mkOpenDir
                          (mkInfo name2 (Size item) (365 + ModeDir)
                                  (LastModifiedDateTime item) true)
                          f (ID item) (DriveID (opts f)) false [] 0)))
          else if String.eqb (DownloadURL item) "" then
            (w', Err (ErrString
                        "the file is not downloadable, because the API didn't provide download URL"))
          else
            match parseDownloadURL (DownloadURL item) with
            | inl err => (w', Err err)
            | inr u =>
                (* create new client to avoid using default client *)
                match Do Fresh w' (mkRequest "GET" u) with
                | (w'', inl err) => (w'', Err err)
                | (w'', inr resp) =>
                    (w'', Ok (RegFile
                                (mkOpenFile
                                   (mkInfo (Name item) (Size item) 365
                                           (LastModifiedDateTime item) false)
                                   (bodyBytes (RespBody resp)))))
                end
            end
      end
  end.

(** [bytes.Buffer.ReadFrom], which [io.Copy] calls: make room for
    [MinRead] bytes, read, and go on until [io.EOF] or an error. *)
Fixpoint ReadFrom (fuel : nat) (buf : list ascii) (file : File)
  : result (list ascii) :=
  match fuel with
  | O => Panic "unreachable: the stream is finite"
  | S fuel' =>
      if negb (canGrow (Z.of_nat (List.length buf)) (Z.of_nat MinRead))
      then Panic "bytes.Buffer: too large"
      else
        let '(file', (bytes, e)) := File_Read file MinRead in
        let buf' := (buf ++ bytes)%list in
        match e with
        | Some EOF => Ok buf'
        | Some err => Err err
        | None => ReadFrom fuel' buf' file'
        end
  end.

(** Reads that end a stream: one more than it has bytes left. *)
Definition readBudget (file : File) : nat :=
  match file with
  | DirFile _ => 1
  | RegFile f => S (List.length (fst (data f)))
  end.

Definition ReadFile (f : FS) (w : World) (name0 : string)
  : World * result (list ascii) :=
  match Open f w name0 with
  | (w', Err err) => (w', Err err)
  | (w', Panic m) => (w', Panic m)
  | (w', Ok file) =>
      let grown :=
        match File_Stat file with
        | Ok info =>
            let size64 := size info in
            if (toInt size64 =? size64)%Z
            then
              (* buf.Grow(int(info.Size())): Grow panics on a negative
                 count, and with bytes.ErrTooLarge when the room cannot be
                 made; otherwise it only reserves the room. *)
              if (toInt (size info) <? 0)%Z
              then Some "bytes.Buffer.Grow: negative count"
              else if negb (canGrow 0 (toInt (size info)))
              then Some "bytes.Buffer: too large"
              else None
            else None
        | _ => None
        end in
      match grown with
      | Some m => (w', Panic m)
      | None =>
          match ReadFrom (readBudget file) [] file with
          | Err err => (w', Err err)
          | Panic m => (w', Panic m)
          | Ok bytes => (w', Ok bytes)
          end
      end
  end.

Definition ReadDir (f : FS) (w : World) (name0 : string)
  : World * result (list dirEntry) :=
  match Open f w name0 with
  | (w', Err err) => (w', Err err)
  | (w', Panic m) => (w', Panic m)
  | (w', Ok file) =>
      match file with
      | DirFile dir =>
          let '(w'', _, r) := openDir_ReadDir w' dir (-1) in (w'', r)
      | RegFile _ =>
          (w', Err (PathError "readdir" name0 (ErrString "not implemented")))
      end
  end.

Definition Stat (f : FS) (w : World) (name0 : string) : World * result fileInfo :=
  match validatePath name0 with
  | Some err => (w, Err (PathError "open" name0 err))
  | None =>
      let name1 := if String.eqb name0 "." then "/" else name0 in
      let itemPath := strings.TrimPrefix name1 "/" in
      match getDriveItemsByPath w (DriveID (opts f)) itemPath with
      | (w', Panic m) => (w', Panic m)
      | (w', Err err) =>
          match errors_As err with
          | Some odErr =>
              if String.eqb (Code odErr) "itemNotFound"
              then (w', Err ErrNotExist)
              else (w', Err err)
          | None => (w', Err err)
          end
      | (w', Ok None) => (w', Panic "nil pointer dereference")
      | (w', Ok (Some item)) =>
          if isSome (Folder item) then
            let name2 := if isSome (Root item) then "." else Name item in
            (w', Ok (mkInfo name2 (Size item) (365 + ModeDir)
                            (LastModifiedDateTime item) true))
          else
            (w', Ok (mkInfo (Name item) (Size item) 365
                            (LastModifiedDateTime item) false))
      end
  end.

End Facade.

(** ** Vocabulary of the properties *)

(** Ascending and strictly ascending order of entry names. *)
Definition nameLe (a b : dirEntry) : Prop := cmpName a b <> Gt.
Definition nameLt (a b : dirEntry) : Prop := cmpName a b = Lt.

(** The cursor of a handle lies within its listing. *)
Definition cursorOK (d : openDir) : Prop :=
  (0 <= offset d <= Z.of_nat (List.length (items d)))%Z.

(** The invariant of the handles that [Open] makes and [ReadDir] moves:
    the cursor lies within the listing, and stands at 0 as long as the
    [sync.Once] has not fired. *)
Definition wellFormed (d : openDir) : Prop :=
  cursorOK d /\ (getItemsOnce d = false -> offset d = 0%Z).

(** The items not read yet, in the order the listing has them. *)
Definition remaining (d : openDir) : list (option driveItem) :=
  List.skipn (Z.to_nat (offset d)) (items d).

(** The items behind a list of pointers, when none of them is nil. *)
Fixpoint present (l : list (option driveItem)) : option (list driveItem) :=
  match l with
  | [] => Some []
  | Some item :: rest =>
      match present rest with
      | Some its => Some (item :: its)
      | None => None
      end
  | None :: _ => None
  end.

(** The item path [Open] and [Stat] resolve for a name. *)
Definition itemPathOf (name0 : string) : string :=
  strings.TrimPrefix (if String.eqb name0 "." then "/" else name0) "/".

(** The path of the listing request as the specification words it:
    [<base>/(me/drive|drives/{driveID})/(root|items/{folderID})/children]. *)
Definition specChildrenPath (drive folder : string) : string :=
  "/v1.0/"
  ++ (if String.eqb drive "" then "me/drive" else "drives/" ++ url.PathEscape drive)
  ++ "/"
  ++ (if String.eqb folder "" then "root" else "items/" ++ url.PathEscape folder)
  ++ "/children".

(** Draining a handle by reads of one entry until [io.EOF], at most
    [fuel] reads. *)
Section Drain.

Context {R : Remote}.

Fixpoint drainByOne (fuel : nat) (w : World) (d : openDir)
  : World * openDir * result (list dirEntry) :=
  match fuel with
  | O => (w, d, Panic "more entries than reads")
  | S fuel' =>
      match openDir_ReadDir w d 1 with
      | (w', d', Err EOF) => (w', d', Ok [])
      | (w', d', Ok batch) =>
          match drainByOne fuel' w' d' with
          | (w'', d'', Ok rest) => (w'', d'', Ok (batch ++ rest)%list)
          | other => other
          end
      | other => other
      end
  end.

End Drain.

(** ** A remote service that replays a script

    The [n]-th request of a run is answered by the [n]-th answer of the
    script, and by a transport error after its end; bodies are given
    already decoded, and a buffer can grow up to 2 GiB.  The concrete runs
    of the properties use it. *)

Inductive replayBody :=
| JSONItem (item : option driveItem)
| JSONItems (resp : option driveItemsResponse)
| JSONError (e : option OneDriveAPIError)
| Malformed
| Raw (bytes : string).

Definition replay (script : list (error + Response replayBody)) : Remote := {|
  Body := replayBody;
  clientDo := fun _ w _ =>
    List.nth (List.length w) script (inl (ErrOpaque "connection refused"));
  decodeError := fun b =>
    match b with
    | JSONError e => Some e
    | Malformed | Raw _ => None
    | _ => Some None
    end;
  decodeItem := fun b =>
    match b with
    | JSONItem i => inr i
    | _ => inl (ErrOpaque "json: cannot unmarshal")
    end;
  decodeItems := fun b =>
    match b with
    | JSONItems r => inr r
    | _ => inl (ErrOpaque "json: cannot unmarshal")
    end;
  bodyBytes := fun b =>
    match b with
    | Raw s => (list_ascii_of_string s, None)
    | _ => ([], None)
    end;
  parseDownloadURL := fun s => inr (url.mkURL "https" s "" "");
  canGrow := fun m n => (m + n <=? 2 ^ 31)%Z
|}.

Definition ok200 (b : replayBody) : error + Response replayBody :=
  inr (mkResponse 200 "200 OK" [] b).

Definition folderItem (id nm : string) (root : bool) (sz : Z) : driveItem :=
  mkItem id nm "" "" (Some tt) (if root then Some tt else None) sz 0 1700000000.

Definition fileItem (id nm : string) (sz : Z) : driveItem :=
  mkItem id nm ("https://download.example/" ++ id) "" None None sz 0 1700000000.

Definition listing (l : list driveItem) : error + Response replayBody :=
  ok200 (JSONItems (Some (mkItems "" (Z.of_nat (List.length l)) (List.map Some l)))).

Definition defaultFS : FS := mkFS (mkOpts "").

(** The answer to the resolution of ["."], and the handle [Open] returns
    for it. *)
Definition rootAnswer : error + Response replayBody :=
  ok200 (JSONItem (Some (folderItem "root" "onedrivefs_test" true 62))).

Definition rootDir : openDir :=
  mkOpenDir (mkInfo "." 62 (365 + ModeDir) 1700000000 true)
            defaultFS "root" "" false [] 0.

(** The same handle after a [ReadDir] that fetched nothing. *)
Definition firedRootDir : openDir :=
  mkOpenDir (dir_info rootDir) defaultFS "root" "" true [] 0.

(** A directory listed as [subdir1], [README.md] by the remote service. *)
Definition unsortedRemote : Remote :=
  replay [rootAnswer;
          listing [folderItem "id-s" "subdir1" false 29; fileItem "id-r" "README.md" 33]].

Definition entrySubdir1 : dirEntry :=
  mkEntry (mkInfo "subdir1" 29 (365 + ModeDir) 1700000000 true).
Definition entryReadme : dirEntry :=
  mkEntry (mkInfo "README.md" 33 365 1700000000 false).

(** A directory in which two children carry the name [a]. *)
Definition twinsRemote : Remote :=
  replay [rootAnswer; listing [fileItem "id-1" "a" 1; fileItem "id-2" "a" 1]].

(** A directory listed as [b], [a] by the remote service. *)
Definition swappedRemote : Remote :=
  replay [rootAnswer; listing [fileItem "id-b" "b" 2; fileItem "id-a" "a" 1]].

Definition entryA : dirEntry := mkEntry (mkInfo "a" 1 365 1700000000 false).
Definition entryB : dirEntry := mkEntry (mkInfo "b" 2 365 1700000000 false).

(** A handle that has fetched three children and has read one of them. *)
Definition threeItems : list driveItem :=
  [fileItem "id-c" "c" 3; fileItem "id-a" "a" 1; fileItem "id-b" "b" 2].

Definition midwayDir : openDir :=
  mkOpenDir (dir_info rootDir) defaultFS "root" "" true (List.map Some threeItems) 1.

(** A directory whose listing holds a JSON [null] after its first
    child, and a handle that has fetched it. *)
Definition nullRemote : Remote :=
  replay [rootAnswer;
          ok200 (JSONItems (Some (mkItems "" 2 [Some (fileItem "id-c" "c" 3); None])))].

Definition nullDir : openDir :=
  mkOpenDir (dir_info rootDir) defaultFS "root" "" true
            [Some (fileItem "id-c" "c" 3); None] 0.

(** A directory whose listing request times out. *)
Definition timeoutRemote : Remote :=
  replay [rootAnswer; inl (ErrWrap "Get" (ErrOpaque "context deadline exceeded"))].

(** A throttled request: status 429 with a structured error body. *)
Definition throttled : OneDriveAPIError :=
  mkAPIError "activityLimitReached" "throttled" "" None [].

Definition throttledResponse : Response replayBody :=
  mkResponse 429 "429 Too Many Requests" [("Retry-After", ["30"])]
             (JSONError (Some throttled)).

Definition throttledRemote : Remote := replay [inr throttledResponse].

(** A path the remote service does not know. *)
Definition notFound : OneDriveAPIError :=
  mkAPIError "itemNotFound" "Item does not exist" "" None [].

Definition missingRemote : Remote :=
  replay [inr (mkResponse 404 "404 Not Found" [] (JSONError (Some notFound)))].

(** A folder for which the remote service reports the size [-1]. *)
Definition negativeSizeRemote : Remote :=
  replay [ok200 (JSONItem (Some (folderItem "id-d" "subdir1" false (-1))))].

(** A file for which the remote service gives no download URL. *)
Definition bareItem : driveItem := mkItem "id-n" "notes.txt" "" "" None None 7 0 0.

Definition bareRemote : Remote := replay [ok200 (JSONItem (Some bareItem))].

(** A file whose download is answered by an error page. *)
Definition goneRemote : Remote :=
  replay [ok200 (JSONItem (Some (fileItem "id-r" "README.md" 33)));
          inr (mkResponse 404 "404 Not Found" [] (Raw "gone"))].

(** A file of five bytes that the item reports as of size 2. *)
Definition shortRemote : Remote :=
  replay [ok200 (JSONItem (Some (fileItem "id-h" "hello.txt" 2)));
          ok200 (Raw "hello")].

(** A remote service that answers "204 No Content". *)
Definition noContentRemote : Remote :=
  replay [inr (mkResponse 204 "204 No Content" [] Malformed)].

(** ** io/fs: the methods of [fs.FileMode], and [dirEntry.Type] *)

Definition ModeSymlink : Z := Z.shiftl 1 27.
Definition ModeDevice : Z := Z.shiftl 1 26.
Definition ModeNamedPipe : Z := Z.shiftl 1 25.
Definition ModeSocket : Z := Z.shiftl 1 24.
Definition ModeCharDevice : Z := Z.shiftl 1 21.
Definition ModeIrregular : Z := Z.shiftl 1 19.

Definition ModeType : Z :=
  Z.lor ModeDir
    (Z.lor ModeSymlink
       (Z.lor ModeNamedPipe
          (Z.lor ModeSocket (Z.lor ModeDevice (Z.lor ModeCharDevice ModeIrregular))))).

Definition FileMode_IsDir (m : Z) : bool := negb (Z.land m ModeDir =? 0)%Z.
Definition FileMode_Type (m : Z) : Z := Z.land m ModeType.
Definition FileMode_Perm (m : Z) : Z := Z.land m ModePerm.

(** file.go: [dirEntry.Type]. *)
Definition dirEntry_Type (d : dirEntry) : Z := FileMode_Type (mode (entryInfo d)).

(** The request of a resolution, and the request of a download. *)
Definition resolutionRequest (drive itemPath : string) : Request :=
  mkRequest "GET"
    (url.mkURL "https" "graph.microsoft.com"
       (url.resolvePath "/v1.0/" (getDriveItemsByPath_URL drive itemPath)) "").

Definition listingRequest (drive folder : string) : Request :=
  mkRequest "GET"
    (url.mkURL "https" "graph.microsoft.com"
       (url.resolvePath "/v1.0/" (listDriveItems_URL drive folder))
       "%24orderby=name+asc").

(** Path segments joined by [/]. *)
Fixpoint joinSlash (segs : list (list ascii)) : list ascii :=
  match segs with
  | [] => []
  | [s] => s
  | s :: rest => (s ++ "/"%char :: joinSlash rest)%list
  end.

(** A segment that [resolvePath] copies as it is: it holds no [/] and is
    neither [.] nor [..]. *)
Definition plainSegment (s : list ascii) : Prop :=
  ~ List.In "/"%char s /\ s <> ["."%char] /\ s <> ["."%char; "."%char].

(** * Properties *)

(** ** The library functions on samples *)

Example Clean_dot : filepath.Clean "." = ".".
Proof. reflexivity. Qed.

Example Clean_samples :
  List.map filepath.Clean
    ["subdir1/subdir2"; "a/b/../c"; "a//b"; "./a"; "a/"; "../a/.."; "/a/../.."; "";
     "a/./b"; "a/b/../../.."; "/"]
  = ["subdir1/subdir2"; "a/c"; "a/b"; "a"; "a"; ".."; "/"; ".";
     "a/b"; ".."; "/"].
Proof. reflexivity. Qed.

(** The loop of [Clean] ends within [length path] iterations: more fuel
    than that changes nothing. *)
Lemma element_length (path : list ascii) :
  (List.length (snd (filepath.element path)) <= List.length path)%nat.
Proof.
  induction path as [ | c rest IH ]; simpl; [ lia | ].
  destruct (filepath.isSep c); simpl; [ lia | ].
  destruct (filepath.element rest) as [e r]. simpl in *. lia.
Qed.

Lemma cleanLoop_fuel (fuel : nat) :
  forall (fuel' : nat) (rooted : bool) (path out : list ascii) (dotdot : nat),
    (List.length path <= fuel)%nat -> (List.length path <= fuel')%nat ->
    filepath.cleanLoop fuel rooted path out dotdot
    = filepath.cleanLoop fuel' rooted path out dotdot.
Proof.
  induction fuel as [ | fuel IH ]; intros fuel' rooted path out dotdot H1 H2.
  - destruct path; [ | simpl in H1; lia ]. destruct fuel'; reflexivity.
  - destruct fuel' as [ | fuel' ].
    + destruct path; [ reflexivity | simpl in H2; lia ].
    + destruct path as [ | c rest ]; [ reflexivity | ].
      simpl in H1, H2.
      assert (Htl : (List.length (List.tl rest) <= List.length rest)%nat)
        by (destruct rest; simpl; lia).
      cbn [filepath.cleanLoop].
      destruct (filepath.isSep c) eqn:Esep; [ apply IH; lia | ].
      destruct (filepath.isDot c && filepath.endOrSep rest); [ apply IH; lia | ].
      destruct (filepath.isDot c && _).
      * destruct (Nat.ltb dotdot (List.length out)); [ apply IH; lia | ].
        destruct (negb rooted); apply IH; lia.
      * cbn [filepath.element]. rewrite Esep.
        pose proof (element_length rest) as Hel.
        destruct (filepath.element rest) as [e r]. simpl in Hel.
        apply IH; lia.
Qed.

Example PathEscape_samples :
  List.map url.PathEscape ["d1"; "a b"; "a/b"; "01!x"; "k:v"; "x%y"]
  = ["d1"; "a%20b"; "a%2Fb"; "01%21x"; "k:v"; "x%25y"].
Proof. reflexivity. Qed.

Example Encode_orderby :
  url.Encode [("$orderby", ["name asc"])] = "%24orderby=name+asc".
Proof. reflexivity. Qed.

Example resolvePath_samples :
  List.map (url.resolvePath "/v1.0/")
    ["me/drive/root"; "/v1.0/drives/d1/root"; "me/drive/items/../children"; "a/./b"]
  = ["/v1.0/me/drive/root"; "/v1.0/drives/d1/root"; "/v1.0/me/drive/children";
     "/v1.0/a/b"].
Proof. reflexivity. Qed.

(** ** Order of names *)

Lemma Compare_refl (a : string) : strings.Compare a a = Eq.
Proof. apply String_as_OT.cmp_eq. reflexivity. Qed.

Lemma Compare_lt_trans (a b c : string) :
  strings.Compare a b = Lt -> strings.Compare b c = Lt -> strings.Compare a c = Lt.
Proof.
  unfold strings.Compare. intros Hab Hbc.
  apply String_as_OT.cmp_lt in Hab. apply String_as_OT.cmp_lt in Hbc.
  apply String_as_OT.cmp_lt. eapply String_as_OT.lt_trans; eassumption.
Qed.

Lemma Compare_gt_lt (a b : string) :
  strings.Compare a b = Gt -> strings.Compare b a = Lt.
Proof.
  unfold strings.Compare. intros H.
  rewrite String_as_OT.cmp_antisym in H.
  destruct (String_as_OT.cmp b a) eqn:E; simpl in H; try discriminate.
  exact E.
Qed.

Lemma nameLe_trans (a b c : dirEntry) : nameLe a b -> nameLe b c -> nameLe a c.
Proof.
  unfold nameLe, cmpName. intros Hab Hbc.
  destruct (strings.Compare (dirEntry_Name a) (dirEntry_Name b)) eqn:Eab;
    [ | | congruence ].
  - apply String_as_OT.cmp_eq in Eab. rewrite Eab. exact Hbc.
  - destruct (strings.Compare (dirEntry_Name b) (dirEntry_Name c)) eqn:Ebc;
      [ | | congruence ].
    + apply String_as_OT.cmp_eq in Ebc. rewrite <- Ebc, Eab. discriminate.
    + rewrite (Compare_lt_trans _ _ _ Eab Ebc). discriminate.
Qed.

Lemma nameLe_of_gt (a b : dirEntry) : cmpName a b = Gt -> nameLe b a.
Proof.
  unfold nameLe, cmpName. intros H. rewrite (Compare_gt_lt _ _ H). discriminate.
Qed.

(** ** The sort: a sorted rearrangement *)

Lemma insert_perm (x : dirEntry) (l : list dirEntry) :
  Permutation (slices.insert cmpName x l) (x :: l).
Proof.
  induction l as [ | y rest IH ]; simpl.
  - apply Permutation_refl.
  - destruct (cmpName x y); try apply Permutation_refl.
    apply perm_trans with (y :: x :: rest).
    + apply perm_skip. exact IH.
    + apply perm_swap.
Qed.

Lemma SortFunc_perm (l : list dirEntry) :
  Permutation (slices.SortFunc cmpName l) l.
Proof.
  induction l as [ | x rest IH ]; simpl.
  - apply perm_nil.
  - apply perm_trans with (x :: slices.SortFunc cmpName rest).
    + apply insert_perm.
    + apply perm_skip. exact IH.
Qed.

Lemma insert_sorted (x : dirEntry) (l : list dirEntry) :
  StronglySorted nameLe l -> StronglySorted nameLe (slices.insert cmpName x l).
Proof.
  induction 1 as [ | y rest Hs IH Hall ]; simpl.
  - constructor; constructor.
  - destruct (cmpName x y) eqn:E.
    + constructor; [ constructor; assumption | ].
      assert (Hxy : nameLe x y) by (unfold nameLe; congruence).
      constructor; [ exact Hxy | ].
      eapply Forall_impl; [ | exact Hall ].
      intros z Hz. eapply nameLe_trans; eassumption.
    + constructor; [ constructor; assumption | ].
      assert (Hxy : nameLe x y) by (unfold nameLe; congruence).
      constructor; [ exact Hxy | ].
      eapply Forall_impl; [ | exact Hall ].
      intros z Hz. eapply nameLe_trans; eassumption.
    + constructor; [ exact IH | ].
      apply Forall_forall. intros z Hz.
      apply (Permutation_in _ (insert_perm x rest)) in Hz.
      destruct Hz as [ <- | Hz ].
      * apply nameLe_of_gt. exact E.
      * rewrite Forall_forall in Hall. apply Hall. exact Hz.
Qed.

Lemma SortFunc_sorted (l : list dirEntry) :
  StronglySorted nameLe (slices.SortFunc cmpName l).
Proof.
  induction l as [ | x rest IH ]; simpl.
  - constructor.
  - apply insert_sorted. exact IH.
Qed.

(** With pairwise distinct names, ascending is strictly ascending. *)
Lemma sorted_distinct_strict (l : list dirEntry) :
  StronglySorted nameLe l ->
  NoDup (List.map dirEntry_Name l) ->
  StronglySorted nameLt l.
Proof.
  induction 1 as [ | x rest Hs IH Hall ]; simpl; intros Hnd.
  - constructor.
  - inversion Hnd as [ | ? ? Hnotin Hnd' ]; subst.
    constructor; [ apply IH; exact Hnd' | ].
    apply Forall_forall. intros y Hy.
    rewrite Forall_forall in Hall. specialize (Hall y Hy).
    unfold nameLe, nameLt, cmpName in *.
    destruct (strings.Compare (dirEntry_Name x) (dirEntry_Name y)) eqn:E;
      [ | reflexivity | congruence ].
    apply String_as_OT.cmp_eq in E. exfalso. apply Hnotin.
    rewrite E. apply in_map. exact Hy.
Qed.

Lemma SortFunc_of_sorted (l : list dirEntry) :
  StronglySorted nameLe l -> slices.SortFunc cmpName l = l.
Proof.
  induction 1 as [ | x rest Hs IH Hall ]; simpl.
  - reflexivity.
  - rewrite IH. destruct rest as [ | y rest' ]; simpl.
    + reflexivity.
    + inversion Hall as [ | ? ? Hxy _ ]; subst.
      unfold nameLe in Hxy. destruct (cmpName x y); congruence.
Qed.

(** A list in strictly ascending order is the only ascending
    rearrangement of itself: whatever the sort does with equal names, it
    returns such a list as it is. *)
Lemma sorted_perm_unique (l : list dirEntry) :
  forall l' : list dirEntry,
    StronglySorted nameLt l -> StronglySorted nameLe l' -> Permutation l l' ->
    l' = l.
Proof.
  induction l as [ | x xs IH ]; intros l' Hl Hl' Hperm.
  - apply Permutation_nil in Hperm. exact Hperm.
  - destruct l' as [ | y ys ].
    + apply Permutation_sym, Permutation_nil in Hperm. discriminate.
    + inversion Hl as [ | ? ? Hxs Hx ]; subst.
      inversion Hl' as [ | ? ? Hys Hy ]; subst.
      rewrite Forall_forall in Hx, Hy.
      assert (Hxy : y = x).
      { assert (Hin : List.In x (y :: ys))
          by (apply (Permutation_in _ Hperm); left; reflexivity).
        destruct Hin as [ E | Hin ]; [ exact E | ].
        assert (Hin' : List.In y (x :: xs))
          by (apply (Permutation_in _ (Permutation_sym Hperm)); left; reflexivity).
        destruct Hin' as [ E | Hin' ]; [ symmetry; exact E | ].
        specialize (Hx y Hin'). specialize (Hy x Hin).
        unfold nameLt, nameLe, cmpName in *.
        destruct (strings.Compare (dirEntry_Name y) (dirEntry_Name x)) eqn:E;
          [ | | congruence ].
        - apply String_as_OT.cmp_eq in E. rewrite E, Compare_refl in Hx. discriminate.
        - pose proof (Compare_lt_trans _ _ _ Hx E) as F.
          rewrite Compare_refl in F. discriminate. }
      subst y. f_equal. apply IH; [ exact Hxs | exact Hys | ].
      apply (Permutation_cons_inv Hperm).
Qed.

(** ** The directory handle *)

Lemma present_map_Some (l : list driveItem) : present (List.map Some l) = Some l.
Proof.
  induction l as [ | x rest IH ]; simpl; [ reflexivity | ].
  rewrite IH. reflexivity.
Qed.

Lemma present_Some_map (l : list (option driveItem)) (its : list driveItem) :
  present l = Some its -> l = List.map Some its.
Proof.
  revert its. induction l as [ | [ x | ] rest IH ]; simpl; intros its H.
  - injection H as <-. reflexivity.
  - destruct (present rest) as [ its' | ]; [ | discriminate ].
    injection H as <-. simpl. rewrite (IH its' eq_refl). reflexivity.
  - discriminate.
Qed.

Lemma present_length (l : list (option driveItem)) (its : list driveItem) :
  present l = Some its -> List.length its = List.length l.
Proof.
  intros H. rewrite (present_Some_map l its H), List.length_map. reflexivity.
Qed.

(** A prefix of a list without nil has none. *)
Lemma present_firstn (l : list (option driveItem)) (its : list driveItem) (k : nat) :
  present l = Some its -> present (List.firstn k l) = Some (List.firstn k its).
Proof.
  intros H. rewrite (present_Some_map l its H), List.firstn_map.
  apply present_map_Some.
Qed.

Lemma index_skipn (A : Type) (its : list A) (j : Z) :
  (0 <= j)%Z ->
  index its j = List.hd_error (List.skipn (Z.to_nat j) its).
Proof.
  intros Hj. unfold index.
  destruct (j <? 0)%Z eqn:E; [ apply Z.ltb_lt in E; lia | ].
  clear E Hj. generalize (Z.to_nat j) as n. intros n. revert its.
  induction n as [ | n IH ]; intros [ | x rest ]; simpl; auto.
Qed.

Lemma skipn_S_tl (A : Type) (l : list A) (n : nat) :
  List.skipn (S n) l = List.tl (List.skipn n l).
Proof.
  revert l. induction n as [ | n IH ]; intros [ | x rest ]; simpl; auto.
  rewrite <- IH. reflexivity.
Qed.

(** The loop over a slice that lies within the listing: the images of
    its items, or the panic of the first nil among them. *)
Lemma fillEntries_slice (its : list (option driveItem)) (off : Z) (k : nat) (i : Z) :
  (0 <= off)%Z -> (0 <= i)%Z ->
  (off + i + Z.of_nat k <= Z.of_nat (List.length its))%Z ->
  fillEntries its off i k
  = match present (List.firstn k (List.skipn (Z.to_nat (off + i)) its)) with
    | Some l => inr (List.map entryOf l)
    | None => inl "nil pointer dereference"
    end.
Proof.
  revert i. induction k as [ | k IH ]; intros i Hoff Hi Hlen; simpl.
  - reflexivity.
  - rewrite index_skipn by lia.
    assert (Hlt : (Z.to_nat (off + i) < List.length its)%nat) by lia.
    destruct (List.skipn (Z.to_nat (off + i)) its) as [ | x rest ] eqn:Es.
    + apply (f_equal (@List.length _)) in Es.
      rewrite List.length_skipn in Es. simpl in Es. lia.
    + simpl. destruct x as [ item | ]; [ | reflexivity ].
      rewrite IH by lia.
      replace (Z.to_nat (off + (i + 1))) with (S (Z.to_nat (off + i))) by lia.
      rewrite skipn_S_tl, Es. simpl.
      destruct (present (List.firstn k rest)); reflexivity.
Qed.

Section HandleFacts.

Context {R : Remote}.

(** Once the [sync.Once] has fired, [ReadDir] asks nothing of the
    remote service. *)
Lemma getItems_done (w : World) (d : openDir) :
  getItemsOnce d = true -> getItems w d = (w, d, ErrNil).
Proof. intros H. unfold getItems. rewrite H. reflexivity. Qed.

(** Whatever its outcome, a call leaves the [sync.Once] fired. *)
Lemma getItems_fires (w : World) (d : openDir) :
  getItemsOnce (snd (fst (getItems w d))) = true.
Proof.
  unfold getItems. destruct (getItemsOnce d) eqn:E; simpl; [ exact E | ].
  destruct (listDriveItems w (driveID d) (dirID d)) as [w' [ [ resp | ] | err | m ]];
    reflexivity.
Qed.

Lemma ReadDir_fires (w : World) (d : openDir) (count : Z) :
  getItemsOnce (snd (fst (openDir_ReadDir w d count))) = true.
Proof.
  unfold openDir_ReadDir.
  pose proof (getItems_fires w d) as H.
  destruct (getItems w d) as [[w' d'] [ | err | m ]]; simpl in *; try exact H.
  destruct ((_ =? 0)%Z && (count >? 0)%Z); simpl; [ exact H | ].
  match goal with |- context [ if (?n <? 0)%Z then _ else _ ] =>
    destruct (n <? 0)%Z end; simpl; [ exact H | ].
  destruct (fillEntries _ _ _ _); simpl; exact H.
Qed.

(** What a call on a fetched handle whose cursor lies within the listing
    does: the batch is the sorted image of the next [k] items of the
    listing; when one of them is nil the call panics, the cursor where it
    was. *)
Lemma ReadDir_fetched (w : World) (d : openDir) (count : Z) :
  getItemsOnce d = true -> cursorOK d ->
  openDir_ReadDir w d count =
    let n := Z.of_nat (List.length (remaining d)) in
    if (n =? 0)%Z && (count >? 0)%Z then (w, d, Err EOF)
    else
      let k := if (count >? 0)%Z && (n >? count)%Z then count else n in
      match present (List.firstn (Z.to_nat k) (remaining d)) with
      | Some l =>
          (w, withOffset d (offset d + k),
           Ok (slices.SortFunc cmpName (List.map entryOf l)))
      | None => (w, d, Panic "nil pointer dereference")
      end.
Proof.
  intros Hdone [Hlo Hhi]. unfold openDir_ReadDir.
  rewrite (getItems_done w d Hdone). unfold remaining.
  rewrite List.length_skipn.
  replace (Z.of_nat (List.length (items d) - Z.to_nat (offset d)))
    with (Z.of_nat (List.length (items d)) - offset d)%Z by lia.
  set (n := (Z.of_nat (List.length (items d)) - offset d)%Z).
  assert (Hn : (0 <= n)%Z) by (unfold n; lia).
  destruct ((n =? 0)%Z && (count >? 0)%Z); [ reflexivity | ].
  cbv zeta.
  set (k := if (count >? 0)%Z && (n >? count)%Z then count else n).
  assert (Hk : (0 <= k <= n)%Z).
  { unfold k. destruct (count >? 0)%Z eqn:E1; simpl; [ | lia ].
    destruct (n >? count)%Z eqn:E2; [ | lia ].
    apply Z.gtb_lt in E1. apply Z.gtb_lt in E2. lia. }
  destruct (k <? 0)%Z eqn:E; [ apply Z.ltb_lt in E; lia | ].
  rewrite fillEntries_slice by (unfold n in *; lia).
  rewrite Z.add_0_r.
  destruct (present _); reflexivity.
Qed.

(** One unbounded read of a fetched handle gives the sorted image of all
    that remains, when no nil remains. *)
Lemma unbounded_read_sorted_listing (w : World) (d : openDir)
      (rest : list driveItem) :
  getItemsOnce d = true -> cursorOK d ->
  present (remaining d) = Some rest ->
  openDir_ReadDir w d (-1)
  = (w, withOffset d (Z.of_nat (List.length (items d))),
     Ok (slices.SortFunc cmpName (List.map entryOf rest))).
Proof.
  intros Hdone Hc Hrest. rewrite (ReadDir_fetched w d (-1) Hdone Hc). cbv zeta.
  simpl andb. rewrite andb_false_r.
  rewrite List.firstn_all2 by lia. rewrite Hrest.
  assert (Z.of_nat (List.length (remaining d))
          = Z.of_nat (List.length (items d)) - offset d)%Z.
  { unfold remaining. rewrite List.length_skipn. unfold cursorOK in Hc. lia. }
  do 2 f_equal. f_equal. lia.
Qed.

(** [ReadDir] keeps the invariant of handles. *)
Lemma ReadDir_wellFormed (w : World) (d : openDir) (count : Z) :
  wellFormed d -> wellFormed (snd (fst (openDir_ReadDir w d count))).
Proof.
  intros [Hc Hfresh].
  split; [ | intros Hno; rewrite ReadDir_fires in Hno; discriminate ].
  assert (Hg : cursorOK (snd (fst (getItems w d)))).
  { unfold getItems. destruct (getItemsOnce d) eqn:E; [ exact Hc | ].
    specialize (Hfresh eq_refl).
    destruct (listDriveItems w (driveID d) (dirID d))
      as [w' [ [ resp | ] | err | m ]]; simpl; try exact Hc.
    unfold cursorOK. simpl. lia. }
  unfold openDir_ReadDir.
  destruct (getItems w d) as [[w' d'] [ | err | m ]]; simpl in *; try exact Hg.
  set (n := (Z.of_nat (List.length (items d')) - offset d')%Z).
  destruct ((n =? 0)%Z && (count >? 0)%Z); simpl; [ exact Hg | ].
  set (k := if (count >? 0)%Z && (n >? count)%Z then count else n).
  destruct (k <? 0)%Z eqn:E; simpl; [ exact Hg | ].
  destruct (fillEntries _ _ _ _); simpl; [ exact Hg | ].
  apply Z.ltb_ge in E. unfold cursorOK in *. simpl.
  assert (k <= n)%Z.
  { unfold k. destruct (count >? 0)%Z eqn:E1; simpl; [ | lia ].
    destruct (n >? count)%Z eqn:E2; [ | lia ].
    apply Z.gtb_lt in E2. lia. }
  unfold n in *. lia.
Qed.

(** A call that finds the [sync.Once] unfired and fetches a listing goes
    on as a call on the handle that holds the listing. *)
Lemma ReadDir_after_fetch (w w' : World) (d : openDir) (count : Z)
      (resp : driveItemsResponse) :
  getItemsOnce d = false ->
  listDriveItems w (driveID d) (dirID d) = (w', Ok (Some resp)) ->
  openDir_ReadDir w d count
  = openDir_ReadDir w' (withItems d true (DriveItems resp)) count.
Proof.
  intros Hfresh Hlist. unfold openDir_ReadDir at 1 2. unfold getItems.
  rewrite Hfresh, Hlist. reflexivity.
Qed.

(** Every batch is a sorted list, whatever the handle and the count. *)
Lemma ReadDir_batch_sorted (w : World) (d : openDir) (count : Z)
      (w' : World) (d' : openDir) (batch : list dirEntry) :
  openDir_ReadDir w d count = (w', d', Ok batch) ->
  StronglySorted nameLe batch.
Proof.
  unfold openDir_ReadDir.
  destruct (getItems w d) as [[w1 d1] [ | err | m ]]; try discriminate.
  destruct ((_ =? 0)%Z && (count >? 0)%Z); [ discriminate | ].
  match goal with |- context [ if (?n <? 0)%Z then _ else _ ] =>
    destruct (n <? 0)%Z end; [ discriminate | ].
  destruct (fillEntries _ _ _ _) as [ m | l ]; [ discriminate | ].
  intros H. injection H as _ _ <-. apply SortFunc_sorted.
Qed.

End HandleFacts.

(** ** C1: the order of directory listings *)

Section Listing.

Context {R : Remote}.

(** [FS.ReadDir] returns the batch of one unbounded read of the handle
    that [Open] made. *)
Lemma ReadDir_is_unbounded_read (f : FS) (w w' : World) (name0 : string)
      (entries : list dirEntry) :
  ReadDir f w name0 = (w', Ok entries) ->
  exists w1 dir d',
    Open f w name0 = (w1, Ok (DirFile dir))
    /\ openDir_ReadDir w1 dir (-1) = (w', d', Ok entries).
Proof.
  unfold ReadDir.
  destruct (Open f w name0) as [w1 [ [ dir | rf ] | err | m ]]; try discriminate.
  destruct (openDir_ReadDir w1 dir (-1)) as [[w2 d'] r] eqn:E.
  intros H. injection H as -> ->. exists w1, dir, d'. split; [ reflexivity | exact E ].
Qed.

(** The handle [Open] returns for a folder is fresh: nothing fetched,
    nothing read. *)
Lemma Open_fresh_handle (f : FS) (w w' : World) (name0 : string) (d : openDir) :
  Open f w name0 = (w', Ok (DirFile d)) ->
  getItemsOnce d = false /\ items d = [] /\ offset d = 0%Z
  /\ driveID d = DriveID (opts f) /\ wellFormed d.
Proof.
  unfold Open.
  destruct (validatePath name0); [ discriminate | ].
  destruct (getDriveItemsByPath w (DriveID (opts f)) _)
    as [w1 [ [ item | ] | err | m ]]; try discriminate.
  - destruct (isSome (Folder item)).
    + intros H. injection H as _ <-. simpl.
      repeat split; try reflexivity; unfold cursorOK; simpl; lia.
    + destruct (String.eqb (DownloadURL item) ""); [ discriminate | ].
      destruct (parseDownloadURL (DownloadURL item)) as [ e | u ]; [ discriminate | ].
      unfold Do. destruct (clientDo Fresh w1 (mkRequest "GET" u)); discriminate.
  - destruct (errors_As err) as [ od | ]; [ | discriminate ].
    destruct (String.eqb (Code od) ItemNotFoundErrorCode); discriminate.
Qed.

(** When the path resolves to a folder and its listing arrives, no
    element of it nil, [FS.ReadDir] returns the sorted image of the
    children, one entry for each, whatever their order. *)
Lemma ReadDir_lists_children (f : FS) (w w1 w2 : World) (name0 : string)
      (dir : openDir) (resp : driveItemsResponse) (children : list driveItem) :
  Open f w name0 = (w1, Ok (DirFile dir)) ->
  listDriveItems w1 (driveID dir) (dirID dir) = (w2, Ok (Some resp)) ->
  present (DriveItems resp) = Some children ->
  ReadDir f w name0
  = (w2, Ok (slices.SortFunc cmpName (List.map entryOf children))).
Proof.
  intros Hopen Hlist Hchildren.
  destruct (Open_fresh_handle f w w1 name0 dir Hopen) as (Hfresh & _ & Hoff & _ & _).
  unfold ReadDir. rewrite Hopen.
  rewrite (ReadDir_after_fetch w1 w2 dir (-1) resp Hfresh Hlist).
  rewrite (unbounded_read_sorted_listing _ _ children).
  - reflexivity.
  - reflexivity.
  - unfold cursorOK. simpl. lia.
  - unfold remaining. simpl. rewrite Hoff. exact Hchildren.
Qed.

End Listing.

(** C1 (as amended).  Whatever the order in which the remote service
    returned the children, the entries [FS.ReadDir] returns are in ascending
    name order, and in strictly ascending order when their names are
    pairwise distinct; the same holds of every batch a handle's
    [ReadDir(count)] returns; and when the path resolves to a folder whose
    listing arrives, none of its elements nil, [FS.ReadDir] returns one
    entry for each child. *)
Theorem ReadDir_ascending (R : Remote) (f : FS) (w w' : World) (name0 : string)
        (entries : list dirEntry)
        (wd wd' : World) (d d' : openDir) (count : Z) (batch : list dirEntry)
        (w1 w2 : World) (dir : openDir) (resp : driveItemsResponse)
        (children : list driveItem) :
  (ReadDir f w name0 = (w', Ok entries) ->
   StronglySorted nameLe entries
   /\ (NoDup (List.map dirEntry_Name entries) -> StronglySorted nameLt entries))
  /\
  (openDir_ReadDir wd d count = (wd', d', Ok batch) ->
   StronglySorted nameLe batch
   /\ (NoDup (List.map dirEntry_Name batch) -> StronglySorted nameLt batch))
  /\
  (Open f w name0 = (w1, Ok (DirFile dir)) ->
   listDriveItems w1 (driveID dir) (dirID dir) = (w2, Ok (Some resp)) ->
   present (DriveItems resp) = Some children ->
   exists all,
     ReadDir f w name0 = (w2, Ok all)
     /\ Permutation all (List.map entryOf children)).
Proof.
  assert (Hbatch : forall w0 d0 c w3 d3 b,
             openDir_ReadDir w0 d0 c = (w3, d3, Ok b) ->
             StronglySorted nameLe b
             /\ (NoDup (List.map dirEntry_Name b) -> StronglySorted nameLt b)).
  { intros w0 d0 c w3 d3 b H.
    pose proof (ReadDir_batch_sorted _ _ _ _ _ _ H) as Hs.
    split; [ exact Hs | apply sorted_distinct_strict; exact Hs ]. }
  split; [ | split ].
  - intros H. apply ReadDir_is_unbounded_read in H.
    destruct H as (w3 & dir3 & d3 & _ & H). eapply Hbatch. exact H.
  - apply Hbatch.
  - intros Hopen Hlist Hchildren. eexists. split.
    + apply (ReadDir_lists_children f w w1 w2 name0 dir resp children
               Hopen Hlist Hchildren).
    + apply SortFunc_perm.
Qed.

(** C1 at a directory that the remote service lists as [subdir1],
    [README.md], neither of them nil. *)
Lemma ReadDir_ascending_witness :
  snd (@ReadDir unsortedRemote defaultFS [] ".") = Ok [entryReadme; entrySubdir1]
  /\ StronglySorted nameLt [entryReadme; entrySubdir1]
  /\ exists all,
      snd (@ReadDir unsortedRemote defaultFS [] ".") = Ok all
      /\ Permutation all [entrySubdir1; entryReadme].
Proof.
  split; [ reflexivity | ]. split.
  - refine (proj2 (proj1 (ReadDir_ascending unsortedRemote defaultFS []
                            (fst (@ReadDir unsortedRemote defaultFS [] "."))
                            "." [entryReadme; entrySubdir1]
                            [] [] rootDir rootDir 0 []
                            [] [] rootDir (mkItems "" 0 []) []) _) _).
    + reflexivity.
    + repeat constructor; simpl; intuition discriminate.
  - destruct (proj2 (proj2 (ReadDir_ascending unsortedRemote defaultFS []
                              [] "." []
                              [] [] rootDir rootDir 0 []
                              (fst (@Open unsortedRemote defaultFS [] "."))
                              (fst (@ReadDir unsortedRemote defaultFS [] "."))
                              rootDir
                              (mkItems "" 2
                                 [Some (folderItem "id-s" "subdir1" false 29);
                                  Some (fileItem "id-r" "README.md" 33)])
                              [folderItem "id-s" "subdir1" false 29;
                               fileItem "id-r" "README.md" 33]))
                     eq_refl eq_refl eq_refl) as (all & Hr & Hp).
    exists all. rewrite Hr. split; [ reflexivity | exact Hp ].
Defined.

(** C1, as stated, fails on a listing in which two children carry the same
    name: the entries come back in ascending, not strictly ascending,
    order. *)
Lemma ReadDir_equal_names_not_strict :
  snd (@ReadDir twinsRemote defaultFS [] ".") = Ok [entryA; entryA]
  /\ ~ StronglySorted nameLt [entryA; entryA].
Proof.
  split; [ reflexivity | ].
  intros H. inversion H as [ | ? ? _ Hall ]; subst.
  inversion Hall as [ | ? ? Hlt _ ]; subst.
  discriminate Hlt.
Qed.

(** ** C7: the cursor of a fetched handle *)

(** C7.  On a handle whose listing is fetched, whose cursor lies within
    it and whose items from the cursor on are [rest], none of them nil: a
    call with [count > 0] returns [io.EOF] exactly when nothing remains,
    and otherwise a batch of [min count (remaining)] entries, the sorted
    image of the items at the cursor, and adds the length of the batch to
    the cursor; a call with [count < 0] returns all the remaining entries
    and sets the cursor to the length of the listing, and returns an empty
    batch and no error when nothing remains.  No request is sent and the
    listing is kept. *)
Theorem ReadDir_cursor (R : Remote) (w w' : World) (d d' : openDir) (count : Z)
        (r : result (list dirEntry)) (rest : list driveItem) :
  getItemsOnce d = true ->
  cursorOK d ->
  present (remaining d) = Some rest ->
  openDir_ReadDir w d count = (w', d', r) ->
  w' = w
  /\ items d' = items d
  /\ ((count > 0)%Z ->
      (r = Err EOF <-> rest = [])
      /\ (rest = [] -> d' = d)
      /\ (rest <> [] ->
          exists batch,
            r = Ok batch
            /\ Z.of_nat (List.length batch)
               = Z.min count (Z.of_nat (List.length rest))
            /\ Permutation batch
                 (List.map entryOf (List.firstn (List.length batch) rest))
            /\ StronglySorted nameLe batch
            /\ offset d' = (offset d + Z.of_nat (List.length batch))%Z))
  /\ ((count < 0)%Z ->
      exists batch,
        r = Ok batch
        /\ Permutation batch (List.map entryOf rest)
        /\ StronglySorted nameLe batch
        /\ offset d' = Z.of_nat (List.length (items d))
        /\ (rest = [] -> batch = [])).
Proof.
  intros Hdone Hc Hrest Hcall.
  rewrite (ReadDir_fetched w d count Hdone Hc) in Hcall. cbv zeta in Hcall.
  assert (Hrem : Z.of_nat (List.length rest)
                 = (Z.of_nat (List.length (items d)) - offset d)%Z).
  { rewrite (present_length _ _ Hrest). unfold remaining.
    rewrite List.length_skipn. unfold cursorOK in Hc. lia. }
  rewrite <- (present_length _ _ Hrest) in Hcall.
  rewrite (present_firstn _ _ _ Hrest) in Hcall.
  set (n := Z.of_nat (List.length rest)) in *.
  assert (Hnil : rest = [] <-> n = 0%Z).
  { unfold n. destruct rest; simpl; split; intros; try reflexivity;
      try discriminate; lia. }
  split; [ | split; [ | split ] ].
  - destruct ((n =? 0)%Z && (count >? 0)%Z); congruence.
  - destruct ((n =? 0)%Z && (count >? 0)%Z); injection Hcall as _ <- _; reflexivity.
  - intros Hpos.
    assert (E1 : (count >? 0)%Z = true) by (apply Z.gtb_lt; lia).
    rewrite E1, andb_true_r in Hcall. simpl in Hcall.
    destruct (n =? 0)%Z eqn:E0.
    + apply Z.eqb_eq in E0. injection Hcall as <- <- <-.
      split; [ | split ].
      * split; intros; [ apply Hnil; exact E0 | reflexivity ].
      * reflexivity.
      * intros Hne. exfalso. apply Hne. apply Hnil. exact E0.
    + apply Z.eqb_neq in E0.
      set (k := if (n >? count)%Z then count else n) in *.
      assert (Hk : k = Z.min count n).
      { unfold k. destruct (n >? count)%Z eqn:E2.
        - apply Z.gtb_lt in E2. lia.
        - assert (n <= count)%Z by (destruct (Z.gtb_spec n count); [ discriminate | lia ]).
          lia. }
      assert (Hlen : List.length (List.firstn (Z.to_nat k) rest) = Z.to_nat k).
      { rewrite List.length_firstn. unfold n in *. lia. }
      injection Hcall as <- <- <-.
      split; [ | split ].
      * split; [ discriminate | ]. intros Hn. apply Hnil in Hn. contradiction.
      * intros Hn. apply Hnil in Hn. contradiction.
      * intros _.
        exists (slices.SortFunc cmpName
                  (List.map entryOf (List.firstn (Z.to_nat k) rest))).
        assert (Hl : List.length
                       (slices.SortFunc cmpName
                          (List.map entryOf (List.firstn (Z.to_nat k) rest)))
                     = Z.to_nat k).
        { rewrite (Permutation_length (SortFunc_perm _)), List.length_map. exact Hlen. }
        rewrite Hl.
        split; [ reflexivity | ].
        split; [ unfold n in *; lia | ].
        split; [ apply SortFunc_perm | ].
        split; [ apply SortFunc_sorted | ].
        simpl. unfold n in *. lia.
  - intros Hneg.
    assert (E1 : (count >? 0)%Z = false).
    { destruct (Z.gtb_spec count 0); [ lia | reflexivity ]. }
    rewrite E1, andb_false_r in Hcall. simpl in Hcall.
    injection Hcall as <- <- <-.
    assert (Hall : List.firstn (Z.to_nat n) rest = rest).
    { apply List.firstn_all2. unfold n. lia. }
    rewrite Hall.
    exists (slices.SortFunc cmpName (List.map entryOf rest)).
    split; [ reflexivity | ].
    split; [ apply SortFunc_perm | ].
    split; [ apply SortFunc_sorted | ].
    split; [ simpl; lia | ].
    intros ->. reflexivity.
Qed.

(** C7 at a handle over [c], [a], [b] with the cursor at 1, read with
    [count = 5]: no request is sent, the batch has the two entries that
    remain, and the cursor moves from 1 to 3. *)
Lemma ReadDir_cursor_witness :
  getItemsOnce midwayDir = true
  /\ cursorOK midwayDir
  /\ present (remaining midwayDir) = Some (List.tl threeItems)
  /\ fst (fst (@openDir_ReadDir unsortedRemote [] midwayDir 5)) = []
  /\ exists batch,
      snd (@openDir_ReadDir unsortedRemote [] midwayDir 5) = Ok batch
      /\ Z.of_nat (List.length batch) = 2%Z
      /\ StronglySorted nameLe batch
      /\ offset (snd (fst (@openDir_ReadDir unsortedRemote [] midwayDir 5)))
         = (1 + Z.of_nat (List.length batch))%Z.
Proof.
  assert (Hc : cursorOK midwayDir) by (unfold cursorOK; simpl; lia).
  split; [ reflexivity | ]. split; [ exact Hc | ]. split; [ reflexivity | ].
  destruct (@openDir_ReadDir unsortedRemote [] midwayDir 5) as [[w' d'] r] eqn:E.
  destruct (ReadDir_cursor unsortedRemote [] w' midwayDir d' 5 r (List.tl threeItems)
              eq_refl Hc eq_refl E)
    as (Hw & _ & Hpos & _).
  split; [ exact Hw | ].
  destruct (Hpos ltac:(lia)) as (_ & _ & Hsome).
  destruct (Hsome ltac:(discriminate)) as (batch & Hr & Hlen & _ & Hsorted & Hd).
  exists batch. simpl.
  split; [ exact Hr | ].
  split; [ exact Hlen | ].
  split; [ exact Hsorted | exact Hd ].
Defined.

(** ** C2: bounded reads against one unbounded read *)

Lemma SortFunc_single (e : dirEntry) : slices.SortFunc cmpName [e] = [e].
Proof. reflexivity. Qed.

Lemma remaining_withOffset_S (d : openDir) (x : option driveItem)
      (rest : list (option driveItem)) :
  cursorOK d -> remaining d = x :: rest ->
  remaining (withOffset d (offset d + 1)) = rest.
Proof.
  intros [Hlo _] Hrem. unfold remaining in *. simpl.
  replace (Z.to_nat (offset d + 1)) with (S (Z.to_nat (offset d))) by lia.
  rewrite skipn_S_tl, Hrem. reflexivity.
Qed.

Lemma one_of_many (n : Z) :
  (1 <= n)%Z -> (if (1 >? 0)%Z && (n >? 1)%Z then 1%Z else n) = 1%Z.
Proof.
  intros Hn. change (1 >? 0)%Z with true. simpl andb.
  destruct (Z.gtb_spec n 1); lia.
Qed.

Section DrainFacts.

Context {R : Remote}.

(** Read one entry at a time, a fetched handle gives its entries in the
    order of the listing, that is, in the order of the remote service:
    each batch of one entry is sorted on its own. *)
Lemma drainByOne_listing_order (rest : list driveItem) :
  forall (w : World) (d : openDir),
    getItemsOnce d = true -> cursorOK d -> present (remaining d) = Some rest ->
    drainByOne (S (List.length rest)) w d
    = (w, withOffset d (Z.of_nat (List.length (items d))),
       Ok (List.map entryOf rest)).
Proof.
  induction rest as [ | x rest IH ]; intros w d Hdone Hc Hrem;
    apply present_Some_map in Hrem; simpl List.map in Hrem.
  - simpl. rewrite (ReadDir_fetched w d 1 Hdone Hc). cbv zeta. rewrite Hrem. simpl.
    assert (Hoff : offset d = Z.of_nat (List.length (items d))).
    { unfold remaining in Hrem. apply (f_equal (@List.length _)) in Hrem.
      rewrite List.length_skipn in Hrem. simpl in Hrem. unfold cursorOK in Hc. lia. }
    rewrite <- Hoff. destruct d; reflexivity.
  - change (drainByOne (S (List.length (x :: rest))) w d)
      with (match openDir_ReadDir w d 1 with
            | (w', d', Err EOF) => (w', d', Ok [])
            | (w', d', Ok batch) =>
                match drainByOne (S (List.length rest)) w' d' with
                | (w'', d'', Ok tl) => (w'', d'', Ok (batch ++ tl)%list)
                | other => other
                end
            | other => other
            end).
    rewrite (ReadDir_fetched w d 1 Hdone Hc). cbv zeta. rewrite Hrem.
    rewrite one_of_many by (simpl List.length; lia).
    replace ((Z.of_nat (List.length (Some x :: List.map Some rest)) =? 0)%Z
             && (1 >? 0)%Z) with false
      by (simpl List.length; symmetry; apply andb_false_intro1; apply Z.eqb_neq; lia).
    change (Z.to_nat 1) with 1%nat. simpl List.firstn. simpl present. cbv beta iota. simpl List.map.
    rewrite SortFunc_single.
    assert (Hc' : cursorOK (withOffset d (offset d + 1))).
    { unfold cursorOK in *. simpl.
      assert (Z.of_nat (List.length (remaining d))
              = Z.of_nat (List.length (items d)) - offset d)%Z.
      { unfold remaining. rewrite List.length_skipn. lia. }
      rewrite Hrem in H. simpl List.length in H. lia. }
    rewrite (IH w (withOffset d (offset d + 1)) Hdone Hc').
    + reflexivity.
    + rewrite (remaining_withOffset_S d (Some x) (List.map Some rest) Hc Hrem).
      apply present_map_Some.
Qed.

End DrainFacts.

(** C2 fails on the code.  On the handle [Open] returns for a directory
    that the remote service lists as [b], [a], reads of one entry give
    [b] then [a], the order of the remote service, and one unbounded read
    of a fresh handle gives [a] then [b]: the sort is applied to each
    batch, not to the listing. *)
Theorem bounded_reads_keep_remote_order :
  @Open swappedRemote defaultFS [] "."
  = ([(Authenticated,
       mkRequest "GET"
         (url.mkURL "https" "graph.microsoft.com" "/v1.0/me/drive/root" ""))],
     Ok (DirFile rootDir))
  /\ snd (@drainByOne swappedRemote 3 (fst (@Open swappedRemote defaultFS [] ".")) rootDir)
     = Ok [entryB; entryA]
  /\ snd (@openDir_ReadDir swappedRemote (fst (@Open swappedRemote defaultFS [] "."))
            rootDir (-1))
     = Ok [entryA; entryB].
Proof. repeat split. Qed.

(** ** C3: the listing is fetched once, and its failure is forgotten *)

Section FetchFacts.

Context {R : Remote}.

Lemma ReadDir_world (w : World) (d : openDir) (count : Z) :
  fst (fst (openDir_ReadDir w d count)) = fst (fst (getItems w d)).
Proof.
  unfold openDir_ReadDir.
  destruct (getItems w d) as [[w1 d1] [ | err | m ]]; try reflexivity.
  cbv zeta. destruct (_ && _); [ reflexivity | ].
  destruct (_ <? 0)%Z; [ reflexivity | ].
  destruct (fillEntries _ _ _ _); reflexivity.
Qed.

Lemma doRequest_world (T : Type) (decode : Body -> error + option T)
      (w : World) (req : Request) :
  fst (doRequest decode w req) = (w ++ [(Authenticated, req)])%list.
Proof.
  unfold doRequest, Do.
  destruct (clientDo Authenticated w req) as [ err | resp ]; [ reflexivity | ].
  destruct (StatusCode resp >=? 400)%Z.
  - destruct (decodeError (RespBody resp)) as [ [ e | ] | ]; reflexivity.
  - destruct (negb (StatusCode resp =? 204)%Z); [ | reflexivity ].
    destruct (decode (RespBody resp)) as [ err | v ]; reflexivity.
Qed.

(** A call sends at most one request, and none once the [sync.Once]
    has fired. *)
Lemma ReadDir_requests (w : World) (d : openDir) (count : Z) :
  (getItemsOnce d = true -> fst (fst (openDir_ReadDir w d count)) = w)
  /\ (fst (fst (openDir_ReadDir w d count)) = w
      \/ exists req, fst (fst (openDir_ReadDir w d count))
                     = (w ++ [(Authenticated, req)])%list).
Proof.
  rewrite ReadDir_world. unfold getItems.
  destruct (getItemsOnce d) eqn:Eonce.
  - split; [ reflexivity | left; reflexivity ].
  - split; [ discriminate | ].
    unfold listDriveItems.
    destruct (listDriveItems_Request (driveID d) (dirID d)) as [ req | err | m ];
      [ | left; reflexivity | left; reflexivity ].
    right. exists req.
    pose proof (doRequest_world _ decodeItems w req) as Hw.
    destruct (doRequest decodeItems w req) as [w1 [ [ resp | ] | err | m ]];
      simpl in *; exact Hw.
Qed.

(** After a first call that reported a failed fetch, a later call does
    not report it: the handle behaves as an empty directory. *)
Lemma ReadDir_after_failed_fetch (w w' : World) (d d' : openDir) (count : Z)
      (err : error) (count' : Z) :
  getItemsOnce d = false -> items d = [] -> offset d = 0%Z ->
  openDir_ReadDir w d count = (w', d', Err err) ->
  err <> EOF ->
  openDir_ReadDir w' d' count'
  = if (count' >? 0)%Z then (w', d', Err EOF)
    else (w', withOffset d' 0, Ok []).
Proof.
  intros Hfresh Hitems Hoff Hcall Hne.
  unfold openDir_ReadDir in Hcall.
  unfold getItems in Hcall. rewrite Hfresh in Hcall.
  destruct (listDriveItems w (driveID d) (dirID d))
    as [w1 [ [ resp | ] | e | m ]]; try discriminate.
  - cbv zeta in Hcall.
    destruct (_ && _) in Hcall.
    + injection Hcall as _ _ He. congruence.
    + destruct (_ <? 0)%Z in Hcall; [ discriminate | ].
      destruct (fillEntries _ _ _ _) in Hcall; discriminate.
  - injection Hcall as <- <- <-.
    unfold openDir_ReadDir, getItems. simpl.
    rewrite Hitems, Hoff. simpl.
    destruct (count' >? 0)%Z; reflexivity.
Qed.

End FetchFacts.

(** C3 fails on the code.  The listing is requested once, but the error
    of a failed fetch lives in a variable local to the call that made it:
    on the handle [Open] returns for a directory whose listing request
    fails, the first [ReadDir(-1)] reports the failure, and the second
    returns an empty list and no error (and [ReadDir(1)] returns
    [io.EOF]), without a second request. *)
Theorem failed_fetch_forgotten :
  snd (@Open timeoutRemote defaultFS [] ".") = Ok (DirFile rootDir)
  /\ (let w1 := fst (@Open timeoutRemote defaultFS [] ".") in
      let first := @openDir_ReadDir timeoutRemote w1 rootDir (-1) in
      let w2 := fst (fst first) in
      first = (w2, firedRootDir,
               Err (ErrWrap "Get" (ErrOpaque "context deadline exceeded")))
      /\ List.length w2 = 2%nat
      /\ @openDir_ReadDir timeoutRemote w2 firedRootDir (-1) = (w2, firedRootDir, Ok [])
      /\ @openDir_ReadDir timeoutRemote w2 firedRootDir 1 = (w2, firedRootDir, Err EOF)).
Proof. repeat split. Qed.

(** ** C6: error translation in [doRequest] *)

(** C6.  When the client answers with a response of status at least 400,
    [doRequest] returns the remote API error decoded from the body, with
    the headers of the response attached, or, when the body cannot be
    decoded or holds no error object, the error
    ["unexpected error: " + Status]; when the status is 204 the body is
    not decoded: the call succeeds and leaves the target nil, whatever the
    decoder of the target would do.  [doRequest] never panics. *)
Theorem doRequest_error_translation (R : Remote) (T : Type)
        (decode : Body -> error + option T) (w : World) (req : Request)
        (resp : Response Body) :
  clientDo Authenticated w req = inr resp ->
  ((StatusCode resp >= 400)%Z ->
   snd (doRequest decode w req)
   = match decodeError (RespBody resp) with
     | Some (Some apiErr) =>
         Err (ErrAPI (mkAPIError (Code apiErr) (Message apiErr)
                                 (LocalizedMessage apiErr) (InnerError_ apiErr)
                                 (RespHeader resp)))
     | _ => Err (ErrString ("unexpected error: " ++ Status resp))
     end)
  /\ ((StatusCode resp = 204)%Z -> snd (doRequest decode w req) = Ok None)
  /\ (forall m, snd (doRequest decode w req) <> Panic m).
Proof.
  intros Hdo. unfold doRequest, Do. rewrite Hdo.
  split; [ | split ].
  - intros Hge. apply Z.geb_le in Hge || idtac.
    assert (E : (StatusCode resp >=? 400)%Z = true) by (apply Z.geb_le; lia).
    rewrite E. destruct (decodeError (RespBody resp)) as [ [ e | ] | ]; reflexivity.
  - intros H204. rewrite H204. reflexivity.
  - intros m. destruct (StatusCode resp >=? 400)%Z.
    + destruct (decodeError (RespBody resp)) as [ [ e | ] | ]; discriminate.
    + destruct (negb (StatusCode resp =? 204)%Z); [ | discriminate ].
      destruct (decode (RespBody resp)); discriminate.
Qed.

(** C6 at a response of status 429 with a structured error body. *)
Lemma doRequest_error_translation_witness :
  snd (@doRequest throttledRemote driveItem (@decodeItem throttledRemote) []
         (mkRequest "GET" baseURL))
  = Err (ErrAPI (mkAPIError "activityLimitReached" "throttled" "" None
                            [("Retry-After", ["30"])])).
Proof.
  refine (proj1 (doRequest_error_translation throttledRemote driveItem
                   (@decodeItem throttledRemote) [] (mkRequest "GET" baseURL)
                   throttledResponse _) _).
  - reflexivity.
  - simpl. lia.
Defined.

(** ** C4: errors of the resolution in [Open] and [Stat] *)

(** C4.  For a valid path whose resolution fails: when the error is, or
    wraps, a remote API error of code [itemNotFound], [Open] and [Stat]
    return [fs.ErrNotExist]; for every other error they return the error
    of the resolution itself. *)
Theorem resolution_errors (R : Remote) (f : FS) (w w' : World) (name0 : string)
        (err : error) :
  validatePath name0 = None ->
  getDriveItemsByPath w (DriveID (opts f)) (itemPathOf name0) = (w', Err err) ->
  ((exists odErr, errors_As err = Some odErr /\ Code odErr = ItemNotFoundErrorCode) ->
   Open f w name0 = (w', Err ErrNotExist) /\ Stat f w name0 = (w', Err ErrNotExist))
  /\
  ((forall odErr, errors_As err = Some odErr -> Code odErr <> ItemNotFoundErrorCode) ->
   Open f w name0 = (w', Err err) /\ Stat f w name0 = (w', Err err)).
Proof.
  intros Hvalid Hres. unfold Open, Stat. rewrite Hvalid.
  unfold itemPathOf in Hres. rewrite Hres.
  change "itemNotFound" with ItemNotFoundErrorCode.
  split.
  - intros (odErr & Has & Hcode). rewrite Has, Hcode.
    rewrite String.eqb_refl. split; reflexivity.
  - intros Hother. destruct (errors_As err) as [ odErr | ] eqn:Has.
    + destruct (String.eqb_spec (Code odErr) ItemNotFoundErrorCode) as [ E | _ ].
      * exfalso. exact (Hother odErr eq_refl E).
      * split; reflexivity.
    + split; reflexivity.
Qed.

(** C4 at a path for which the remote service answers 404 with the code
    [itemNotFound]. *)
Lemma resolution_errors_witness :
  snd (@Open missingRemote defaultFS [] "non-existent-file.json") = Err ErrNotExist
  /\ snd (@Stat missingRemote defaultFS [] "non-existent-file.json") = Err ErrNotExist.
Proof.
  destruct (proj1 (resolution_errors missingRemote defaultFS []
                     (fst (@Stat missingRemote defaultFS [] "non-existent-file.json"))
                     "non-existent-file.json" (ErrAPI notFound) eq_refl eq_refl)
                  (ex_intro _ notFound (conj eq_refl eq_refl))) as [HO HS].
  rewrite HO, HS. split; reflexivity.
Defined.

(** ** C5: validation of paths *)

(** C5.  A path that is absolute, or differs from its cleaned form, or
    contains a backslash, makes [Open] and [Stat] fail with a path error
    (operation [open], the path, the reason) and leaves the log of
    requests as it was.  The path ["."] passes validation; its item path
    is empty, so that the one request of its resolution addresses the root
    item of the drive. *)
Theorem invalid_path_rejected (R : Remote) (f : FS) (w : World) (name0 : string) :
  ((filepath.IsAbs name0 = true
    \/ filepath.Clean name0 <> name0
    \/ strings.Contains name0 "\" = true) ->
   exists reason,
     validatePath name0 = Some reason
     /\ Open f w name0 = (w, Err (PathError "open" name0 reason))
     /\ Stat f w name0 = (w, Err (PathError "open" name0 reason)))
  /\
  (validatePath "." = None
   /\ itemPathOf "." = ""
   /\ getDriveItemsByPath_URL (DriveID (opts f)) ""
      = (if String.eqb (DriveID (opts f)) "" then "me/drive/root"
         else "/v1.0/drives/" ++ url.PathEscape (DriveID (opts f)) ++ "/root")
   /\ exists req rest,
       newRequest "GET" (getDriveItemsByPath_URL (DriveID (opts f)) "") = Ok req
       /\ fst (Open f w ".") = (w ++ (Authenticated, req) :: rest)%list
       /\ fst (Stat f w ".") = (w ++ [(Authenticated, req)])%list).
Proof.
  split.
  - intros Hbad.
    assert (Hv : exists reason, validatePath name0 = Some reason).
    { unfold validatePath.
      destruct (filepath.IsAbs name0) eqn:Eabs; [ eexists; reflexivity | ].
      destruct (String.eqb_spec (filepath.Clean name0) name0) as [ Ec | Ec ];
        simpl; [ | eexists; reflexivity ].
      destruct (strings.Contains name0 "\") eqn:Eb; [ eexists; reflexivity | ].
      destruct Hbad as [ H | [ H | H ] ]; [ discriminate | contradiction | discriminate ]. }
    destruct Hv as [reason Hv]. exists reason.
    unfold Open, Stat. rewrite Hv. repeat split.
  - split; [ reflexivity | ]. split; [ reflexivity | ].
    split.
    { unfold getDriveItemsByPath_URL. simpl.
      destruct (String.eqb (DriveID (opts f)) ""); reflexivity. }
    unfold newRequest.
    eexists. 
    assert (Hw : forall itemPath,
               fst (getDriveItemsByPath w (DriveID (opts f)) itemPath)
               = (w ++ [(Authenticated,
                         mkRequest "GET"
                           (url.mkURL (url.Scheme baseURL) (url.Host baseURL)
                              (url.resolvePath (url.Path baseURL)
                                 (getDriveItemsByPath_URL (DriveID (opts f)) itemPath))
                              ""))])%list).
    { intros itemPath. unfold getDriveItemsByPath, newRequest.
      apply doRequest_world. }
    specialize (Hw "").
    assert (HS : fst (Stat f w ".")
                 = fst (getDriveItemsByPath w (DriveID (opts f)) "")).
    { unfold Stat. change (validatePath ".") with (@None error). cbv iota.
      change (strings.TrimPrefix (if String.eqb "." "." then "/" else ".") "/") with "".
      destruct (getDriveItemsByPath w (DriveID (opts f)) "")
        as [w1 [ [ item | ] | err | m ]]; simpl; try reflexivity.
      - destruct (isSome (Folder item)); reflexivity.
      - destruct (errors_As err) as [ od | ]; [ | reflexivity ].
        destruct (String.eqb (Code od) "itemNotFound"); reflexivity. }
    assert (HO : exists rest, fst (Open f w ".")
                 = (fst (getDriveItemsByPath w (DriveID (opts f)) "") ++ rest)%list).
    { unfold Open. change (validatePath ".") with (@None error). cbv iota.
      change (strings.TrimPrefix (if String.eqb "." "." then "/" else ".") "/") with "".
      destruct (getDriveItemsByPath w (DriveID (opts f)) "")
        as [w1 [ [ item | ] | err | m ]]; simpl;
        try (exists []; rewrite List.app_nil_r; reflexivity).
      - destruct (isSome (Folder item));
          [ exists []; rewrite List.app_nil_r; reflexivity | ].
        destruct (String.eqb (DownloadURL item) "");
          [ exists []; rewrite List.app_nil_r; reflexivity | ].
        destruct (parseDownloadURL (DownloadURL item)) as [ e | u ];
          [ exists []; rewrite List.app_nil_r; reflexivity | ].
        unfold Do. exists [(Fresh, mkRequest "GET" u)].
        destruct (clientDo Fresh w1 (mkRequest "GET" u)); reflexivity.
      - destruct (errors_As err) as [ od | ];
          [ destruct (String.eqb (Code od) ItemNotFoundErrorCode) | ];
          exists []; rewrite List.app_nil_r; reflexivity. }
    destruct HO as [rest HO].
    exists rest. split; [ reflexivity | ].
    rewrite HO, HS, Hw. split; [ | reflexivity ].
    rewrite <- List.app_assoc. reflexivity.
Qed.

(** C5 at an absolute path. *)
Lemma invalid_path_rejected_witness :
  filepath.IsAbs "/etc/passwd" = true
  /\ exists reason,
      validatePath "/etc/passwd" = Some reason
      /\ @Open missingRemote defaultFS [] "/etc/passwd"
         = ([], Err (PathError "open" "/etc/passwd" reason))
      /\ @Stat missingRemote defaultFS [] "/etc/passwd"
         = ([], Err (PathError "open" "/etc/passwd" reason)).
Proof.
  split; [ reflexivity | ].
  exact (proj1 (invalid_path_rejected missingRemote defaultFS [] "/etc/passwd")
               (or_introl eq_refl)).
Defined.

Example validatePath_samples :
  List.map validatePath ["."; "subdir1/subdir2/foo.json"; "/etc/passwd"; "a/../b"; "a\b"; ""]
  = [None; None;
     Some (ErrString "absolute paths are not allowed");
     Some (ErrString "relative path elements are not allowed");
     Some (ErrString "backslashes are not allowed in path");
     Some (ErrString "relative path elements are not allowed")].
Proof. vm_compute. reflexivity. Qed.

(** ** C8: from a remote item to file information *)

(** C8.  For a valid path resolved to an item, [Stat] always succeeds,
    and [Open] hands out the same file information.  Size and
    modification time are those of the item.  When the item is well
    formed, that is, when the root is itself a folder (the root marker
    comes with the folder marker), the name is ["."] for an item that
    carries the root marker and the remote name otherwise.  A folder item
    is a directory of mode [0o555] with the directory bit, and [Open]
    never fails on it.  An item without the folder marker is a file of
    mode [0o555] under its remote name. *)
Theorem projection_of_item (R : Remote) (f : FS) (w w' : World) (name0 : string)
        (item : driveItem) :
  validatePath name0 = None ->
  getDriveItemsByPath w (DriveID (opts f)) (itemPathOf name0) = (w', Ok (Some item)) ->
  exists info,
    Stat f w name0 = (w', Ok info)
    /\ size info = Size item
    /\ modTime info = LastModifiedDateTime item
    /\ ((Root item <> None -> Folder item <> None) ->
        (Root item <> None -> name info = ".")
        /\ (Root item = None -> name info = Name item))
    /\ (Folder item <> None ->
        isDir info = true
        /\ mode info = Z.lor 365 ModeDir
        /\ Z.testbit (mode info) 31 = true
        /\ Z.land (mode info) ModePerm = 365%Z
        /\ name info = (if isSome (Root item) then "." else Name item)
        /\ exists dir, Open f w name0 = (w', Ok (DirFile dir)) /\ dir_info dir = info)
    /\ (Folder item = None ->
        isDir info = false /\ mode info = 365%Z /\ name info = Name item)
    /\ (forall w2 file, Open f w name0 = (w2, Ok file) -> File_Stat file = Ok info).
Proof.
  intros Hvalid Hres. unfold Stat, Open. rewrite Hvalid.
  unfold itemPathOf in Hres. rewrite Hres.
  destruct (Folder item) as [ [] | ] eqn:Efolder; simpl isSome; cbv iota.
  - eexists. split; [ reflexivity | ]. simpl.
    split; [ reflexivity | ]. split; [ reflexivity | ].
    split.
    { intros _. split; intros Hroot; destruct (Root item); simpl;
        congruence. }
    split.
    + intros _. repeat split. eexists. split; reflexivity.
    + split; [ discriminate | ].
      intros w2 file H. injection H as _ <-. reflexivity.
  - eexists. split; [ reflexivity | ]. simpl.
    split; [ reflexivity | ]. split; [ reflexivity | ].
    split.
    { intros Hwf. split; intros Hroot; [ | reflexivity ].
      exfalso. apply (Hwf Hroot). reflexivity. }
    split; [ intros H; congruence | ].
    split; [ intros _; repeat split | ].
    intros w2 file.
    destruct (String.eqb (DownloadURL item) ""); [ discriminate | ].
    destruct (parseDownloadURL (DownloadURL item)) as [ e | u ]; [ discriminate | ].
    unfold Do. destruct (clientDo Fresh w' (mkRequest "GET" u)) as [ e | resp ];
      [ discriminate | ].
    intros H. injection H as _ <-. reflexivity.
Qed.

(** C8 at the root folder, which carries both markers. *)
Lemma projection_of_item_witness :
  validatePath "." = None
  /\ exists info,
      snd (@Stat swappedRemote defaultFS [] ".") = Ok info
      /\ name info = "." /\ isDir info = true /\ size info = 62%Z
      /\ Z.testbit (mode info) 31 = true.
Proof.
  split; [ reflexivity | ].
  destruct (projection_of_item swappedRemote defaultFS []
              (fst (@Stat swappedRemote defaultFS [] ".")) "."
              (folderItem "root" "onedrivefs_test" true 62) eq_refl eq_refl)
    as (info & HS & Hsize & _ & Hname & Hfolder & _).
  destruct (Hfolder ltac:(discriminate)) as (Hdir & _ & Hbit & _).
  destruct (Hname ltac:(intros _; discriminate)) as (Hroot & _).
  exists info. rewrite HS.
  split; [ reflexivity | ].
  split; [ exact (Hroot ltac:(discriminate)) | ].
  split; [ exact Hdir | ].
  split; [ exact Hsize | exact Hbit ].
Defined.

(** ** C9: the address of a listing request *)

(** On the default drive the request has the path of the specification. *)
Example listing_url_default_drive :
  listDriveItems_Request "" "f1"
  = Ok (mkRequest "GET"
          (url.mkURL "https" "graph.microsoft.com" (specChildrenPath "" "f1")
                     "%24orderby=name+asc"))
  /\ listDriveItems_Request "" ""
     = Ok (mkRequest "GET"
             (url.mkURL "https" "graph.microsoft.com" (specChildrenPath "" "")
                        "%24orderby=name+asc")).
Proof. split; reflexivity. Qed.

(** C9 fails on the code.  With the drive [d1] the listing request goes
    to [/v1.0/me/drives/d1/...], under [me/], and not to
    [/v1.0/drives/d1/...], which is where [getDriveItemsByPath] sends the
    resolution for the same drive. *)
Theorem listing_url_of_named_drive :
  listDriveItems_Request "d1" ""
  = Ok (mkRequest "GET"
          (url.mkURL "https" "graph.microsoft.com"
                     "/v1.0/me/drives/d1/root/children" "%24orderby=name+asc"))
  /\ listDriveItems_Request "d1" "f1"
     = Ok (mkRequest "GET"
             (url.mkURL "https" "graph.microsoft.com"
                        "/v1.0/me/drives/d1/items/f1/children" "%24orderby=name+asc"))
  /\ "/v1.0/me/drives/d1/root/children" <> specChildrenPath "d1" ""
  /\ specChildrenPath "d1" "" = "/v1.0/drives/d1/root/children"
  /\ specChildrenPath "d1" "f1" = "/v1.0/drives/d1/items/f1/children"
  /\ newRequest "GET" (getDriveItemsByPath_URL "d1" "")
     = Ok (mkRequest "GET"
             (url.mkURL "https" "graph.microsoft.com" "/v1.0/drives/d1/root" ""))
  /\ url.String_
       (url.mkURL "https" "graph.microsoft.com"
                  "/v1.0/me/drives/d1/root/children" "%24orderby=name+asc")
     = "https://graph.microsoft.com/v1.0/me/drives/d1/root/children?%24orderby=name+asc".
Proof. repeat split. discriminate. Qed.

(** ** C10: [ReadFile] on a directory *)

Section ReadFileFacts.

Context {R : Remote}.

(** The copy out of a directory handle stops at its first read, with
    the error of [openDir.Read], when the buffer has made room for that
    read. *)
Lemma ReadFrom_directory (d : openDir) (buf : list ascii) :
  canGrow (Z.of_nat (List.length buf)) (Z.of_nat MinRead) = true ->
  ReadFrom (readBudget (DirFile d)) buf (DirFile d)
  = Err (PathError "read" (name (dir_info d)) ErrInvalid).
Proof.
  intros Hroom. unfold readBudget, ReadFrom. rewrite Hroom. reflexivity.
Qed.

(** What [buf.Grow] does with a size that is not negative: nothing that
    shows when the room can be made, a panic when it cannot. *)
Lemma Grow_nonnegative (size64 : Z) :
  (0 <= size64)%Z ->
  (if (toInt size64 =? size64)%Z
   then if (toInt size64 <? 0)%Z
        then Some "bytes.Buffer.Grow: negative count"
        else if negb (canGrow 0 (toInt size64))
             then Some "bytes.Buffer: too large"
             else None
   else None)
  = if (toInt size64 =? size64)%Z && negb (canGrow 0 (toInt size64))
    then Some "bytes.Buffer: too large"
    else None.
Proof.
  intros Hsize.
  destruct (toInt size64 =? size64)%Z eqn:E; [ | reflexivity ].
  apply Z.eqb_eq in E. rewrite E.
  destruct (size64 <? 0)%Z eqn:E'; [ apply Z.ltb_lt in E'; lia | ].
  reflexivity.
Qed.

(** On a path that resolves to a directory whose size is not negative,
    [ReadFile] returns the error of the directory handle's [Read], when
    the buffer has made room for the size and for that read. *)
Lemma ReadFile_directory (f : FS) (w w' : World) (name0 : string) (d : openDir) :
  Open f w name0 = (w', Ok (DirFile d)) ->
  (0 <= size (dir_info d))%Z ->
  canGrow 0 (toInt (size (dir_info d))) = true ->
  canGrow 0 (Z.of_nat MinRead) = true ->
  ReadFile f w name0 = (w', Err (PathError "read" (name (dir_info d)) ErrInvalid)).
Proof.
  intros Hopen Hsize Hgrow Hroom. unfold ReadFile. rewrite Hopen.
  unfold File_Stat, openDir_Stat. cbv zeta.
  rewrite (Grow_nonnegative _ Hsize), Hgrow, andb_false_r.
  rewrite (ReadFrom_directory d [] Hroom). reflexivity.
Qed.

(** Whatever its size, no bytes come out of a directory. *)
Lemma ReadFile_directory_no_bytes (f : FS) (w w' : World) (name0 : string)
      (d : openDir) (bytes : list ascii) :
  Open f w name0 = (w', Ok (DirFile d)) ->
  snd (ReadFile f w name0) <> Ok bytes.
Proof.
  intros Hopen. unfold ReadFile. rewrite Hopen.
  unfold File_Stat, openDir_Stat.
  assert (Hcopy : forall bs, ReadFrom (readBudget (DirFile d)) [] (DirFile d) <> Ok bs).
  { intros bs. unfold readBudget, ReadFrom.
    destruct (negb (canGrow _ _)); discriminate. }
  specialize (Hcopy bytes).
  destruct (toInt (size (dir_info d)) =? size (dir_info d))%Z;
    [ destruct (toInt (size (dir_info d)) <? 0)%Z;
      [ | destruct (negb (canGrow 0 _)) ] | ];
    try discriminate;
    destruct (ReadFrom (readBudget (DirFile d)) [] (DirFile d));
    simpl; congruence.
Qed.

(** One turn of the loop of [ReadFrom] on a file handle. *)
Lemma ReadFrom_step (fuel : nat) (buf bytes : list ascii) (info : fileInfo)
      (fault : option error) :
  ReadFrom (S fuel) buf (RegFile (mkOpenFile info (bytes, fault)))
  = if negb (canGrow (Z.of_nat (List.length buf)) (Z.of_nat MinRead))
    then Panic "bytes.Buffer: too large"
    else match bytes with
         | [] => match fault with
                 | None | Some EOF => Ok (buf ++ [])%list
                 | Some err => Err err
                 end
         | _ :: _ =>
             ReadFrom fuel (buf ++ List.firstn MinRead bytes)%list
               (RegFile (mkOpenFile info (List.skipn MinRead bytes, fault)))
         end.
Proof.
  destruct bytes as [ | b bytes ].
  - cbn [ReadFrom File_Read openFile_Read data fst snd].
    destruct (negb (canGrow _ _)); [ reflexivity | ].
    destruct fault as [ [ ] | ]; reflexivity.
  - reflexivity.
Qed.

(** The copy out of a file handle ends within its budget of reads, with
    all the bytes of the body, or with the error of the stream, when the
    buffer has made room for each read. *)
Lemma ReadFrom_file (fuel : nat) :
  forall (buf bytes : list ascii) (info : fileInfo) (fault : option error),
    (List.length bytes < fuel)%nat ->
    (forall m : nat,
        (List.length buf <= m <= List.length buf + List.length bytes)%nat ->
        canGrow (Z.of_nat m) (Z.of_nat MinRead) = true) ->
    ReadFrom fuel buf (RegFile (mkOpenFile info (bytes, fault)))
    = match fault with
      | None | Some EOF => Ok (buf ++ bytes)%list
      | Some err => Err err
      end.
Proof.
  induction fuel as [ | fuel IH ]; intros buf bytes info fault Hlen Hroom; [ lia | ].
  rewrite ReadFrom_step, (Hroom (List.length buf)) by lia. cbn [negb].
  destruct bytes as [ | b bytes ]; [ reflexivity | ].
  rewrite IH.
  - rewrite <- List.app_assoc, List.firstn_skipn. reflexivity.
  - rewrite List.length_skipn. simpl List.length in *. unfold MinRead. lia.
  - intros m Hm. apply Hroom.
    rewrite List.length_app, List.length_firstn, List.length_skipn in Hm. lia.
Qed.

End ReadFileFacts.

(** C10 fails on the code for a directory of negative reported size:
    [ReadFile] hands the size to [buf.Grow], which panics on a negative
    count, before the copy that would have returned the error of the
    directory handle. *)
Theorem ReadFile_directory_negative_size :
  snd (@Open negativeSizeRemote defaultFS [] "subdir1")
  = Ok (DirFile (mkOpenDir (mkInfo "subdir1" (-1) (365 + ModeDir) 1700000000 true)
                           defaultFS "id-d" "" false [] 0))
  /\ snd (@ReadFile negativeSizeRemote defaultFS [] "subdir1")
     = Panic "bytes.Buffer.Grow: negative count".
Proof. split; reflexivity. Qed.

(** The same directory with the size the fixture has: the error of
    [openDir.Read]. *)
Example ReadFile_directory_fixture :
  snd (@ReadFile unsortedRemote defaultFS [] ".")
  = Err (PathError "read" "." ErrInvalid).
Proof. reflexivity. Qed.

(** * Further properties of the code *)

(** ** The directory handle: counts, cursor and snapshot *)

Lemma remaining_length (d : openDir) :
  cursorOK d ->
  Z.of_nat (List.length (remaining d))
  = (Z.of_nat (List.length (items d)) - offset d)%Z.
Proof.
  intros Hc. unfold remaining. rewrite List.length_skipn. unfold cursorOK in Hc. lia.
Qed.

Lemma remaining_advance (d : openDir) (k : Z) :
  cursorOK d -> (0 <= k)%Z ->
  remaining (withOffset d (offset d + k)) = List.skipn (Z.to_nat k) (remaining d).
Proof.
  intros [Hlo _] Hk. unfold remaining. simpl.
  rewrite List.skipn_skipn. f_equal. lia.
Qed.

Lemma withOffset_same (d : openDir) : withOffset d (offset d) = d.
Proof. destruct d; reflexivity. Qed.

Lemma ReadDir_nothing_remains (R : Remote) (w : World) (d : openDir) (count : Z) :
  getItemsOnce d = true -> cursorOK d -> remaining d = [] ->
  openDir_ReadDir w d count = (w, d, if (count >? 0)%Z then Err EOF else Ok []).
Proof.
  intros Hdone Hc Hrem.
  rewrite (ReadDir_fetched w d count Hdone Hc). cbv zeta.
  rewrite Hrem. simpl List.length. simpl Z.of_nat.
  change (0 =? 0)%Z with true. simpl andb.
  destruct (count >? 0)%Z; [ reflexivity | ].
  simpl. rewrite Z.add_0_r, withOffset_same. reflexivity.
Qed.

(** X1.  A count that is not positive, zero included, makes [ReadDir] an
    unbounded read: on every handle and in every state of the remote
    service the call does what [ReadDir(-1)] does. *)
Theorem ReadDir_nonpositive_count (R : Remote) (w : World) (d : openDir) (count : Z) :
  (count <= 0)%Z ->
  openDir_ReadDir w d count = openDir_ReadDir w d (-1).
Proof.
  intros Hc. unfold openDir_ReadDir.
  destruct (getItems w d) as [[w' d'] [ | err | m ]]; try reflexivity.
  assert (E : (count >? 0)%Z = false).
  { destruct (Z.gtb_spec count 0); [ lia | reflexivity ]. }
  rewrite E. reflexivity.
Qed.

Lemma ReadDir_nonpositive_count_witness :
  @openDir_ReadDir unsortedRemote [] midwayDir 0
  = ([], withOffset midwayDir 3,
     Ok [mkEntry (mkInfo "a" 1 365 1700000000 false);
         mkEntry (mkInfo "b" 2 365 1700000000 false)]).
Proof.
  rewrite (ReadDir_nonpositive_count unsortedRemote [] midwayDir 0); [ | lia ].
  reflexivity.
Defined.

(** X2.  No entry is lost and none comes twice: on a fetched handle
    whose items from the cursor on are [rest], none of them nil, a bounded
    read followed by an unbounded one return batches that together are a
    rearrangement of the entries of [rest], and nothing remains
    afterwards. *)
Theorem reads_partition_listing (R : Remote) (w : World) (d : openDir) (count : Z)
        (rest : list driveItem) :
  getItemsOnce d = true -> cursorOK d ->
  present (remaining d) = Some rest ->
  (count > 0)%Z -> rest <> [] ->
  exists b1 b2 d1 d2,
    openDir_ReadDir w d count = (w, d1, Ok b1)
    /\ openDir_ReadDir w d1 (-1) = (w, d2, Ok b2)
    /\ Permutation (b1 ++ b2) (List.map entryOf rest)
    /\ remaining d2 = [].
Proof.
  intros Hdone Hc Hrest Hpos Hne.
  pose proof (remaining_length d Hc) as Hlen.
  rewrite <- (present_length _ _ Hrest) in Hlen.
  set (n := Z.of_nat (List.length rest)) in *.
  assert (Hn : (0 < n)%Z).
  { unfold n. destruct rest; [ contradiction | simpl; lia ]. }
  set (k := if (count >? 0)%Z && (n >? count)%Z then count else n).
  assert (Hk : (0 < k <= n)%Z).
  { unfold k. destruct (Z.gtb_spec count 0); [ | lia ]. simpl.
    destruct (Z.gtb_spec n count); lia. }
  set (d1 := withOffset d (offset d + k)).
  assert (Hc1 : cursorOK d1).
  { unfold cursorOK in *. unfold d1. simpl. lia. }
  assert (Hrem1 : present (remaining d1) = Some (List.skipn (Z.to_nat k) rest)).
  { unfold d1. rewrite remaining_advance by (try exact Hc; lia).
    rewrite (present_Some_map _ _ Hrest), List.skipn_map.
    apply present_map_Some. }
  exists (slices.SortFunc cmpName
            (List.map entryOf (List.firstn (Z.to_nat k) rest))),
         (slices.SortFunc cmpName
            (List.map entryOf (List.skipn (Z.to_nat k) rest))),
         d1, (withOffset d1 (Z.of_nat (List.length (items d1)))).
  split; [ | split; [ | split ] ].
  - rewrite (ReadDir_fetched w d count Hdone Hc). cbv zeta.
    rewrite <- (present_length _ _ Hrest). fold n.
    replace ((n =? 0)%Z && (count >? 0)%Z) with false
      by (symmetry; apply andb_false_intro1; apply Z.eqb_neq; lia).
    fold k. rewrite (present_firstn _ _ _ Hrest). reflexivity.
  - apply unbounded_read_sorted_listing; [ exact Hdone | exact Hc1 | exact Hrem1 ].
  - rewrite <- (List.firstn_skipn (Z.to_nat k) rest) at 3.
    rewrite List.map_app.
    apply Permutation_app; apply SortFunc_perm.
  - unfold remaining. simpl. apply List.skipn_all2.
    rewrite Nat2Z.id. apply Nat.le_refl.
Qed.

Lemma reads_partition_listing_witness :
  exists b1 b2 d1 d2,
    @openDir_ReadDir unsortedRemote [] midwayDir 1 = ([], d1, Ok b1)
    /\ @openDir_ReadDir unsortedRemote [] d1 (-1) = ([], d2, Ok b2)
    /\ Permutation (b1 ++ b2) (List.map entryOf (List.tl threeItems))
    /\ remaining d2 = [].
Proof.
  apply (reads_partition_listing unsortedRemote [] midwayDir 1 (List.tl threeItems)).
  - reflexivity.
  - unfold cursorOK. simpl. lia.
  - reflexivity.
  - lia.
  - discriminate.
Defined.

(** X3.  Read one entry at a time until [io.EOF], a fetched handle whose
    items from the cursor on are [rest], none of them nil, gives the
    entries of [rest] in the order of the listing; one unbounded read
    gives a rearrangement of them, and the very same sequence when the
    listing is in strictly ascending name order. *)
Theorem drain_versus_unbounded_read (R : Remote) (w : World) (d : openDir)
        (rest : list driveItem) :
  getItemsOnce d = true -> cursorOK d ->
  present (remaining d) = Some rest ->
  exists all,
    snd (openDir_ReadDir w d (-1)) = Ok all
    /\ snd (drainByOne (S (List.length rest)) w d) = Ok (List.map entryOf rest)
    /\ Permutation (List.map entryOf rest) all
    /\ (StronglySorted nameLt (List.map entryOf rest) ->
        all = List.map entryOf rest).
Proof.
  intros Hdone Hc Hrest.
  exists (slices.SortFunc cmpName (List.map entryOf rest)).
  split; [ | split; [ | split ] ].
  - rewrite (unbounded_read_sorted_listing w d rest Hdone Hc Hrest). reflexivity.
  - rewrite (drainByOne_listing_order rest w d Hdone Hc Hrest). reflexivity.
  - apply Permutation_sym. apply SortFunc_perm.
  - intros Hsorted. apply sorted_perm_unique.
    + exact Hsorted.
    + apply SortFunc_sorted.
    + apply Permutation_sym. apply SortFunc_perm.
Qed.

Lemma drain_versus_unbounded_read_witness :
  exists all,
    snd (@openDir_ReadDir unsortedRemote [] midwayDir (-1)) = Ok all
    /\ snd (@drainByOne unsortedRemote 3 [] midwayDir)
       = Ok (List.map entryOf (List.tl threeItems))
    /\ Permutation (List.map entryOf (List.tl threeItems)) all
    /\ (StronglySorted nameLt (List.map entryOf (List.tl threeItems)) ->
        all = List.map entryOf (List.tl threeItems)).
Proof.
  apply (drain_versus_unbounded_read unsortedRemote [] midwayDir (List.tl threeItems)).
  - reflexivity.
  - unfold cursorOK. simpl. lia.
  - reflexivity.
Defined.

(** X4.  A drained handle stays drained: after an unbounded read of a
    fetched handle with no nil among the items from the cursor on, every
    later call with a positive count returns [io.EOF], every later call
    with another count returns an empty batch and no error, and neither
    sends a request nor changes the handle. *)
Theorem drained_handle_stays_drained (R : Remote) (w : World) (d : openDir)
        (count count' : Z) (rest : list driveItem) :
  getItemsOnce d = true -> cursorOK d ->
  present (remaining d) = Some rest ->
  (count <= 0)%Z ->
  exists d1 batch,
    openDir_ReadDir w d count = (w, d1, Ok batch)
    /\ offset d1 = Z.of_nat (List.length (items d))
    /\ openDir_ReadDir w d1 count'
       = (w, d1, if (count' >? 0)%Z then Err EOF else Ok []).
Proof.
  intros Hdone Hc Hrest Hcount.
  set (d1 := withOffset d (Z.of_nat (List.length (items d)))).
  exists d1, (slices.SortFunc cmpName (List.map entryOf rest)).
  split; [ | split ].
  - rewrite (ReadDir_fetched w d count Hdone Hc). cbv zeta.
    assert (E : (count >? 0)%Z = false).
    { destruct (Z.gtb_spec count 0); [ lia | reflexivity ]. }
    rewrite E, andb_false_r. simpl andb. cbv iota.
    rewrite List.firstn_all2 by lia. rewrite Hrest.
    pose proof (remaining_length d Hc) as Hlen.
    unfold d1. do 2 f_equal. f_equal. lia.
  - reflexivity.
  - assert (Hc1 : cursorOK d1) by (unfold cursorOK, d1; simpl; lia).
    assert (Hrem : remaining d1 = []).
    { unfold remaining, d1. simpl. apply List.skipn_all2.
      rewrite Nat2Z.id. apply Nat.le_refl. }
    apply ReadDir_nothing_remains; [ exact Hdone | exact Hc1 | exact Hrem ].
Qed.

Lemma drained_handle_stays_drained_witness :
  exists d1 batch,
    @openDir_ReadDir unsortedRemote [] midwayDir (-1) = ([], d1, Ok batch)
    /\ offset d1 = 3%Z
    /\ @openDir_ReadDir unsortedRemote [] d1 7 = ([], d1, Err EOF).
Proof.
  apply (drained_handle_stays_drained unsortedRemote [] midwayDir (-1) 7
           (List.tl threeItems)).
  - reflexivity.
  - unfold cursorOK. simpl. lia.
  - reflexivity.
  - lia.
Defined.

Section CursorFacts.

Context {R : Remote}.

(** What a call may change in a handle: the [sync.Once], the listing and
    the cursor, never what identifies the directory. *)
Lemma ReadDir_identity (w : World) (d : openDir) (count : Z) :
  let d' := snd (fst (openDir_ReadDir w d count)) in
  dir_info d' = dir_info d /\ dir_fs d' = dir_fs d
  /\ dirID d' = dirID d /\ driveID d' = driveID d.
Proof.
  assert (Hg : let d1 := snd (fst (getItems w d)) in
               dir_info d1 = dir_info d /\ dir_fs d1 = dir_fs d
               /\ dirID d1 = dirID d /\ driveID d1 = driveID d).
  { unfold getItems. destruct (getItemsOnce d); [ repeat split | ].
    destruct (listDriveItems w (driveID d) (dirID d))
      as [w' [ [ resp | ] | err | m ]]; repeat split. }
  unfold openDir_ReadDir.
  destruct (getItems w d) as [[w' d1] [ | err | m ]]; simpl in *; try exact Hg.
  destruct (_ && _); simpl; [ exact Hg | ].
  destruct (_ <? 0)%Z; simpl; [ exact Hg | ].
  destruct (fillEntries _ _ _ _); simpl; exact Hg.
Qed.

Lemma ReadDir_offset_grows (w : World) (d : openDir) (count : Z) :
  (offset d <= offset (snd (fst (openDir_ReadDir w d count))))%Z.
Proof.
  assert (Hg : offset (snd (fst (getItems w d))) = offset d).
  { unfold getItems. destruct (getItemsOnce d); [ reflexivity | ].
    destruct (listDriveItems w (driveID d) (dirID d))
      as [w' [ [ resp | ] | err | m ]]; reflexivity. }
  unfold openDir_ReadDir.
  destruct (getItems w d) as [[w' d1] [ | err | m ]]; simpl in *; try lia.
  set (n := (Z.of_nat (List.length (items d1)) - offset d1)%Z).
  destruct ((n =? 0)%Z && (count >? 0)%Z); simpl; [ lia | ].
  set (k := if (count >? 0)%Z && (n >? count)%Z then count else n).
  destruct (k <? 0)%Z eqn:E; simpl; [ lia | ].
  destruct (fillEntries _ _ _ _); simpl; [ | lia ].
  apply Z.ltb_ge in E. lia.
Qed.

End CursorFacts.

(** X5.  [ReadDir] keeps the invariant of the handles [Open] makes (the
    cursor within the listing, and at 0 until the [sync.Once] fires), never
    moves the cursor backwards, and never changes the file information,
    the directory id or the drive id of the handle. *)
Theorem ReadDir_keeps_handle (R : Remote) (w : World) (d : openDir) (count : Z) :
  wellFormed d ->
  let d' := snd (fst (openDir_ReadDir w d count)) in
  wellFormed d'
  /\ (offset d <= offset d')%Z
  /\ getItemsOnce d' = true
  /\ dir_info d' = dir_info d /\ dirID d' = dirID d /\ driveID d' = driveID d.
Proof.
  intros Hwf. cbv zeta.
  destruct (ReadDir_identity w d count) as (Hi & _ & Hd & Hdr).
  split; [ apply ReadDir_wellFormed; exact Hwf | ].
  split; [ apply ReadDir_offset_grows | ].
  split; [ apply ReadDir_fires | ].
  split; [ exact Hi | split; [ exact Hd | exact Hdr ] ].
Qed.

Lemma ReadDir_keeps_handle_witness :
  wellFormed rootDir
  /\ wellFormed (snd (fst (@openDir_ReadDir unsortedRemote
                             (fst (@Open unsortedRemote defaultFS [] ".")) rootDir 1)))
  /\ offset (snd (fst (@openDir_ReadDir unsortedRemote
                         (fst (@Open unsortedRemote defaultFS [] ".")) rootDir 1)))
     = 1%Z.
Proof.
  assert (Hwf : wellFormed rootDir).
  { split; [ unfold cursorOK; simpl; lia | reflexivity ]. }
  split; [ exact Hwf | ].
  split; [ | reflexivity ].
  exact (proj1 (ReadDir_keeps_handle unsortedRemote
                  (fst (@Open unsortedRemote defaultFS [] ".")) rootDir 1 Hwf)).
Defined.

(** X6.  The listing of a handle is a snapshot: once the [sync.Once] has
    fired, no call sends a request or changes the listing, whatever the
    remote service would answer by then. *)
Theorem listing_is_snapshot (R : Remote) (w : World) (d : openDir) (count : Z) :
  getItemsOnce d = true ->
  fst (fst (openDir_ReadDir w d count)) = w
  /\ items (snd (fst (openDir_ReadDir w d count))) = items d.
Proof.
  intros Hdone. unfold openDir_ReadDir.
  rewrite (getItems_done w d Hdone).
  destruct (_ && _); [ split; reflexivity | ]. cbv zeta.
  destruct (_ <? 0)%Z; [ split; reflexivity | ].
  destruct (fillEntries _ _ _ _); split; reflexivity.
Qed.

Lemma listing_is_snapshot_witness :
  fst (fst (@openDir_ReadDir swappedRemote [] midwayDir 1)) = []
  /\ items (snd (fst (@openDir_ReadDir swappedRemote [] midwayDir 1)))
     = List.map Some threeItems.
Proof.
  exact (listing_is_snapshot swappedRemote [] midwayDir 1 eq_refl).
Defined.

(** ** Requests: one per call, and to whom *)

Section RequestFacts.

Context {R : Remote}.

Lemma getDriveItemsByPath_unfold (w : World) (drive itemPath : string) :
  getDriveItemsByPath w drive itemPath
  = doRequest decodeItem w (resolutionRequest drive itemPath).
Proof. reflexivity. Qed.

Lemma listDriveItems_unfold (w : World) (drive folder : string) :
  listDriveItems w drive folder
  = doRequest decodeItems w (listingRequest drive folder).
Proof. reflexivity. Qed.

Lemma getDriveItemsByPath_world (w : World) (drive itemPath : string) :
  fst (getDriveItemsByPath w drive itemPath)
  = (w ++ [(Authenticated, resolutionRequest drive itemPath)])%list.
Proof. rewrite getDriveItemsByPath_unfold. apply doRequest_world. Qed.

Lemma listDriveItems_world (w : World) (drive folder : string) :
  fst (listDriveItems w drive folder)
  = (w ++ [(Authenticated, listingRequest drive folder)])%list.
Proof. rewrite listDriveItems_unfold. apply doRequest_world. Qed.

(** [Stat] and [Open] on a valid path, in terms of the resolution. *)
Lemma Stat_valid (f : FS) (w : World) (name0 : string) :
  validatePath name0 = None ->
  Stat f w name0
  = match getDriveItemsByPath w (DriveID (opts f)) (itemPathOf name0) with
    | (w', Panic m) => (w', Panic m)
    | (w', Err err) =>
        match errors_As err with
        | Some odErr =>
            if String.eqb (Code odErr) ItemNotFoundErrorCode
            then (w', Err ErrNotExist) else (w', Err err)
        | None => (w', Err err)
        end
    | (w', Ok None) => (w', Panic "nil pointer dereference")
    | (w', Ok (Some item)) =>
        if isSome (Folder item) then
          (w', Ok (mkInfo (if isSome (Root item) then "." else Name item) (Size item)
                          (365 + ModeDir) (LastModifiedDateTime item) true))
        else
          (w', Ok (mkInfo (Name item) (Size item) 365
                          (LastModifiedDateTime item) false))
    end.
Proof. intros Hv. unfold Stat. rewrite Hv. reflexivity. Qed.

Lemma Open_resolved (f : FS) (w w' : World) (name0 : string) (item : driveItem) :
  validatePath name0 = None ->
  getDriveItemsByPath w (DriveID (opts f)) (itemPathOf name0) = (w', Ok (Some item)) ->
  Open f w name0
  = if isSome (Folder item) then
      (w', Ok (DirFile
                 (mkOpenDir
                    (mkInfo (if isSome (Root item) then "." else Name item) (Size item)
                            (365 + ModeDir) (LastModifiedDateTime item) true)
                    f (ID item) (DriveID (opts f)) false [] 0)))
    else if String.eqb (DownloadURL item) "" then
      (w', Err (ErrString
                  "the file is not downloadable, because the API didn't provide download URL"))
    else
      match parseDownloadURL (DownloadURL item) with
      | inl err => (w', Err err)
      | inr u =>
          ((w' ++ [(Fresh, mkRequest "GET" u)])%list,
           match clientDo Fresh w' (mkRequest "GET" u) with
           | inl err => Err err
           | inr resp =>
               Ok (RegFile
                     (mkOpenFile
                        (mkInfo (Name item) (Size item) 365
                                (LastModifiedDateTime item) false)
                        (bodyBytes (RespBody resp))))
           end)
      end.
Proof.
  intros Hv Hres. unfold Open. rewrite Hv.
  unfold itemPathOf in Hres. rewrite Hres.
  destruct (isSome (Folder item)); [ reflexivity | ].
  destruct (String.eqb (DownloadURL item) ""); [ reflexivity | ].
  destruct (parseDownloadURL (DownloadURL item)) as [ e | u ]; [ reflexivity | ].
  unfold Do. destruct (clientDo Fresh w' (mkRequest "GET" u)); reflexivity.
Qed.

End RequestFacts.

(** X7.  Nothing is retried: a resolution and a listing each send exactly
    one request, with the authenticated client, whatever the answer (a
    transport error, an error status, a body that does not decode). *)
Theorem one_request_per_call (R : Remote) (w : World) (drive itemPath folder : string) :
  fst (getDriveItemsByPath w drive itemPath)
  = (w ++ [(Authenticated, resolutionRequest drive itemPath)])%list
  /\ fst (listDriveItems w drive folder)
     = (w ++ [(Authenticated, listingRequest drive folder)])%list.
Proof.
  split; [ apply getDriveItemsByPath_world | apply listDriveItems_world ].
Qed.

(** X8.  [Stat] never opens a byte stream: on an invalid path it sends
    nothing, and on a valid path it sends the one request of the
    resolution, with the authenticated client, whatever the item is. *)
Theorem Stat_sends_one_request (R : Remote) (f : FS) (w : World) (name0 : string) :
  (validatePath name0 <> None -> fst (Stat f w name0) = w)
  /\ (validatePath name0 = None ->
      fst (Stat f w name0)
      = (w ++ [(Authenticated,
                resolutionRequest (DriveID (opts f)) (itemPathOf name0))])%list).
Proof.
  split.
  - intros Hv. unfold Stat. destruct (validatePath name0); [ reflexivity | congruence ].
  - intros Hv. rewrite (Stat_valid f w name0 Hv).
    rewrite <- getDriveItemsByPath_world.
    destruct (getDriveItemsByPath w (DriveID (opts f)) (itemPathOf name0))
      as [w' [ [ item | ] | err | m ]]; simpl; try reflexivity.
    + destruct (isSome (Folder item)); reflexivity.
    + destruct (errors_As err) as [ od | ]; [ | reflexivity ].
      destruct (String.eqb (Code od) ItemNotFoundErrorCode); reflexivity.
Qed.

Lemma Stat_sends_one_request_witness :
  fst (@Stat unsortedRemote defaultFS [] "README.md")
  = [(Authenticated, resolutionRequest "" "README.md")].
Proof.
  exact (proj2 (Stat_sends_one_request unsortedRemote defaultFS [] "README.md") eq_refl).
Defined.

(** ** [Open], [ReadFile] and [ReadDir] on files *)

(** X9.  A file item without a download URL cannot be opened: [Open]
    fails with the "not downloadable" error and sends no download request,
    while [Stat] of the same path succeeds. *)
Theorem not_downloadable (R : Remote) (f : FS) (w w' : World) (name0 : string)
        (item : driveItem) :
  validatePath name0 = None ->
  getDriveItemsByPath w (DriveID (opts f)) (itemPathOf name0) = (w', Ok (Some item)) ->
  Folder item = None ->
  DownloadURL item = "" ->
  Open f w name0
  = (w', Err (ErrString
                "the file is not downloadable, because the API didn't provide download URL"))
  /\ w' = (w ++ [(Authenticated,
                  resolutionRequest (DriveID (opts f)) (itemPathOf name0))])%list
  /\ Stat f w name0
     = (w', Ok (mkInfo (Name item) (Size item) 365 (LastModifiedDateTime item) false)).
Proof.
  intros Hv Hres Hfolder Hurl.
  rewrite (Open_resolved f w w' name0 item Hv Hres), (Stat_valid f w name0 Hv), Hres.
  rewrite Hfolder, Hurl. simpl.
  split; [ reflexivity | ]. split; [ | reflexivity ].
  rewrite <- getDriveItemsByPath_world, Hres. reflexivity.
Qed.

(** X9 at a file for which the remote service gives no download URL. *)
Lemma not_downloadable_witness :
  @Open bareRemote defaultFS [] "notes.txt"
  = ([(Authenticated, resolutionRequest "" "notes.txt")],
     Err (ErrString
            "the file is not downloadable, because the API didn't provide download URL")).
Proof.
  destruct (not_downloadable bareRemote
              defaultFS [] [(Authenticated, resolutionRequest "" "notes.txt")]
              "notes.txt" bareItem
              eq_refl eq_refl eq_refl eq_refl) as (HO & _ & _).
  exact HO.
Defined.

(** X10.  [Open] of a file downloads with a client of its own and does
    not look at the status of the answer: after the resolution it sends
    one request for the download URL with the fresh client, and the handle
    reads the body of whatever response came back, with the metadata of
    the item (mode [0o555], not a directory). *)
Theorem Open_file_downloads (R : Remote) (f : FS) (w w' : World) (name0 : string)
        (item : driveItem) (u : url.URL) (resp : Response Body) :
  validatePath name0 = None ->
  getDriveItemsByPath w (DriveID (opts f)) (itemPathOf name0) = (w', Ok (Some item)) ->
  Folder item = None ->
  DownloadURL item <> "" ->
  parseDownloadURL (DownloadURL item) = inr u ->
  clientDo Fresh w' (mkRequest "GET" u) = inr resp ->
  Open f w name0
  = ((w ++ [(Authenticated, resolutionRequest (DriveID (opts f)) (itemPathOf name0));
            (Fresh, mkRequest "GET" u)])%list,
     Ok (RegFile
           (mkOpenFile
              (mkInfo (Name item) (Size item) 365 (LastModifiedDateTime item) false)
              (bodyBytes (RespBody resp))))).
Proof.
  intros Hv Hres Hfolder Hurl Hparse Hdo.
  rewrite (Open_resolved f w w' name0 item Hv Hres). rewrite Hfolder. simpl.
  destruct (String.eqb_spec (DownloadURL item) ""); [ contradiction | ].
  rewrite Hparse, Hdo.
  pose proof (getDriveItemsByPath_world w (DriveID (opts f)) (itemPathOf name0)) as Hw.
  rewrite Hres in Hw. simpl in Hw. rewrite Hw.
  rewrite <- List.app_assoc. reflexivity.
Qed.

(** X10 at a file whose download is answered by an error page. *)
Lemma Open_file_downloads_witness :
  snd (@Open goneRemote defaultFS [] "README.md")
  = Ok (RegFile (mkOpenFile (mkInfo "README.md" 33 365 1700000000 false)
                            (list_ascii_of_string "gone", None))).
Proof.
  rewrite (Open_file_downloads goneRemote defaultFS []
             [(Authenticated, resolutionRequest "" "README.md")]
             "README.md" (fileItem "id-r" "README.md" 33)
             (url.mkURL "https" "https://download.example/id-r" "" "")
             (mkResponse 404 "404 Not Found" [] (Raw "gone"))
             eq_refl eq_refl eq_refl ltac:(discriminate) eq_refl eq_refl).
  reflexivity.
Defined.

(** X11.  [ReadFile] of a file whose reported size is not negative.
    When the buffer cannot make room for the size, [buf.Grow] panics with
    [bytes.ErrTooLarge] before any byte is copied.  When it can, and can
    make room for each read of the copy, [ReadFile] returns all the bytes
    of the body of the download, or the error of the stream when it
    breaks: the size only sizes the buffer and does not bound what is
    returned. *)
Theorem ReadFile_returns_body (R : Remote) (f : FS) (w w' : World) (name0 : string)
        (rf : openFile) :
  Open f w name0 = (w', Ok (RegFile rf)) ->
  (0 <= size (file_info rf))%Z ->
  (toInt (size (file_info rf)) = size (file_info rf) ->
   canGrow 0 (size (file_info rf)) = false ->
   ReadFile f w name0 = (w', Panic "bytes.Buffer: too large"))
  /\
  (canGrow 0 (toInt (size (file_info rf))) = true ->
   (forall m : nat,
       (m <= List.length (fst (data rf)))%nat ->
       canGrow (Z.of_nat m) (Z.of_nat MinRead) = true) ->
   ReadFile f w name0
   = (w', match snd (data rf) with
          | None | Some EOF => Ok (fst (data rf))
          | Some err => Err err
          end)).
Proof.
  intros Hopen Hsize. unfold ReadFile. rewrite Hopen.
  unfold File_Stat, openFile_Stat. cbv zeta.
  rewrite (Grow_nonnegative _ Hsize).
  split.
  - intros Hint Hfull. rewrite Hint, Hfull, Z.eqb_refl. reflexivity.
  - intros Hgrow Hroom. rewrite Hgrow, andb_false_r.
    destruct rf as [info [bytes fault]]. simpl readBudget. simpl data in *.
    rewrite ReadFrom_file by (simpl in *; try lia; intros m Hm; apply Hroom; lia).
    simpl. destruct fault as [ [ ] | ]; reflexivity.
Qed.

(** X11 at a file of five bytes that the item reports as of size 2, with
    a buffer that can grow to 2 GiB. *)
Lemma ReadFile_returns_body_witness :
  snd (@ReadFile shortRemote defaultFS [] "hello.txt") = Ok (list_ascii_of_string "hello").
Proof.
  refine (f_equal snd
            (proj2 (ReadFile_returns_body shortRemote defaultFS []
                      (fst (@Open shortRemote defaultFS [] "hello.txt")) "hello.txt"
                      (mkOpenFile (mkInfo "hello.txt" 2 365 1700000000 false)
                                  (list_ascii_of_string "hello", None))
                      eq_refl _)
                   eq_refl _)).
  - simpl. lia.
  - intros m Hm. simpl in Hm.
    change ((Z.of_nat m + Z.of_nat MinRead <=? 2 ^ 31)%Z = true).
    apply Z.leb_le. unfold MinRead. lia.
Defined.

(** X12.  [FS.ReadDir] on a path that is a file fails with the path error
    [readdir ...: not implemented], and only after [Open] has sent the
    download request of the file. *)
Theorem ReadDir_of_file (R : Remote) (f : FS) (w w' : World) (name0 : string)
        (rf : openFile) :
  Open f w name0 = (w', Ok (RegFile rf)) ->
  ReadDir f w name0
  = (w', Err (PathError "readdir" name0 (ErrString "not implemented")))
  /\ exists w1 u, w' = (w1 ++ [(Fresh, mkRequest "GET" u)])%list.
Proof.
  intros Hopen. split.
  - unfold ReadDir. rewrite Hopen. reflexivity.
  - unfold Open in Hopen.
    destruct (validatePath name0); [ discriminate | ].
    destruct (getDriveItemsByPath w (DriveID (opts f)) _)
      as [w1 [ [ item | ] | err | m ]]; try discriminate.
    + destruct (isSome (Folder item)); [ discriminate | ].
      destruct (String.eqb (DownloadURL item) ""); [ discriminate | ].
      destruct (parseDownloadURL (DownloadURL item)) as [ e | u ]; [ discriminate | ].
      unfold Do in Hopen.
      destruct (clientDo Fresh w1 (mkRequest "GET" u)); [ discriminate | ].
      injection Hopen as <- _. exists w1, u. reflexivity.
    + destruct (errors_As err) as [ od | ]; [ | discriminate ].
      destruct (String.eqb (Code od) ItemNotFoundErrorCode); discriminate.
Qed.

Lemma ReadDir_of_file_witness :
  @ReadDir shortRemote defaultFS [] "hello.txt"
  = ([(Authenticated, resolutionRequest "" "hello.txt");
      (Fresh, mkRequest "GET" (url.mkURL "https" "https://download.example/id-h" "" ""))],
     Err (PathError "readdir" "hello.txt" (ErrString "not implemented"))).
Proof.
  rewrite (proj1 (ReadDir_of_file shortRemote defaultFS []
                    (fst (@Open shortRemote defaultFS [] "hello.txt")) "hello.txt"
                    (mkOpenFile (mkInfo "hello.txt" 2 365 1700000000 false)
                                (list_ascii_of_string "hello", None))
                    eq_refl)).
  reflexivity.
Defined.

(** ** [ReadDir] and [ReadFile]: the errors of [Open] *)

(** X13.  [FS.ReadDir] and [FS.ReadFile] pass on the failures of [Open]
    as they are: an invalid path gives the path error of operation [open]
    (not [readdir] or [readfile]) and no request, and a path the remote
    service reports as [itemNotFound] gives [fs.ErrNotExist]. *)
Theorem ReadDir_ReadFile_open_errors (R : Remote) (f : FS) (w w' : World)
        (name0 : string) (reason err : error) (odErr : OneDriveAPIError) :
  (validatePath name0 = Some reason ->
   ReadDir f w name0 = (w, Err (PathError "open" name0 reason))
   /\ ReadFile f w name0 = (w, Err (PathError "open" name0 reason)))
  /\
  (validatePath name0 = None ->
   getDriveItemsByPath w (DriveID (opts f)) (itemPathOf name0) = (w', Err err) ->
   errors_As err = Some odErr -> Code odErr = ItemNotFoundErrorCode ->
   ReadDir f w name0 = (w', Err ErrNotExist)
   /\ ReadFile f w name0 = (w', Err ErrNotExist)).
Proof.
  split.
  - intros Hv. unfold ReadDir, ReadFile, Open. rewrite Hv. split; reflexivity.
  - intros Hv Hres Has Hcode.
    unfold ReadDir, ReadFile, Open. rewrite Hv.
    unfold itemPathOf in Hres. rewrite Hres, Has, Hcode.
    rewrite String.eqb_refl. split; reflexivity.
Qed.

Lemma ReadDir_ReadFile_open_errors_witness :
  @ReadDir missingRemote defaultFS [] "no-dir"
  = ([(Authenticated, resolutionRequest "" "no-dir")], Err ErrNotExist)
  /\ @ReadFile missingRemote defaultFS [] "no-dir"
     = ([(Authenticated, resolutionRequest "" "no-dir")], Err ErrNotExist).
Proof.
  exact (proj2 (ReadDir_ReadFile_open_errors missingRemote defaultFS []
                  [(Authenticated, resolutionRequest "" "no-dir")]
                  "no-dir" EOF (ErrAPI notFound) notFound)
               eq_refl eq_refl eq_refl eq_refl).
Defined.

(** ** Answers without an item *)

(** X14.  A resolution answered with status 204, or with a success whose
    body is the JSON [null], leaves the item pointer nil and [doRequest]
    reports no error: [Open] and [Stat] then panic on the nil item, and
    so do [ReadDir] and [ReadFile]. *)
Theorem nil_item_panics (R : Remote) (f : FS) (w : World) (name0 : string)
        (resp : Response Body) :
  validatePath name0 = None ->
  clientDo Authenticated w (resolutionRequest (DriveID (opts f)) (itemPathOf name0))
  = inr resp ->
  (StatusCode resp = 204%Z
   \/ ((StatusCode resp < 400)%Z /\ decodeItem (RespBody resp) = inr None)) ->
  snd (Open f w name0) = Panic "nil pointer dereference"
  /\ snd (Stat f w name0) = Panic "nil pointer dereference"
  /\ snd (ReadDir f w name0) = Panic "nil pointer dereference"
  /\ snd (ReadFile f w name0) = Panic "nil pointer dereference".
Proof.
  intros Hv Hdo Hnil.
  assert (Hres : snd (getDriveItemsByPath w (DriveID (opts f)) (itemPathOf name0))
                 = Ok None).
  { rewrite getDriveItemsByPath_unfold. unfold doRequest, Do. rewrite Hdo.
    destruct Hnil as [ H204 | [Hlt Hnull] ].
    - rewrite H204. reflexivity.
    - assert (E : (StatusCode resp >=? 400)%Z = false).
      { destruct (Z.geb_spec (StatusCode resp) 400); [ lia | reflexivity ]. }
      rewrite E. destruct (negb (StatusCode resp =? 204)%Z); [ | reflexivity ].
      rewrite Hnull. reflexivity. }
  assert (HO : snd (Open f w name0) = Panic "nil pointer dereference").
  { unfold Open. rewrite Hv. fold (itemPathOf name0).
    destruct (getDriveItemsByPath w (DriveID (opts f)) (itemPathOf name0))
      as [w1 r]. simpl in Hres. subst r. reflexivity. }
  split; [ exact HO | ]. split; [ | split ].
  - rewrite (Stat_valid f w name0 Hv).
    destruct (getDriveItemsByPath w (DriveID (opts f)) (itemPathOf name0))
      as [w1 r]. simpl in Hres. subst r. reflexivity.
  - unfold ReadDir. destruct (Open f w name0) as [w1 r]. simpl in HO. subst r.
    reflexivity.
  - unfold ReadFile. destruct (Open f w name0) as [w1 r]. simpl in HO. subst r.
    reflexivity.
Qed.

Lemma nil_item_panics_witness :
  snd (@Stat noContentRemote defaultFS [] "README.md") = Panic "nil pointer dereference".
Proof.
  exact (proj1 (proj2 (nil_item_panics noContentRemote defaultFS [] "README.md"
                         (mkResponse 204 "204 No Content" [] Malformed)
                         eq_refl eq_refl (or_introl eq_refl)))).
Defined.

(** X15.  A listing answered the same way makes the first [ReadDir] of a
    handle panic inside the [sync.Once]; the [sync.Once] has fired all
    the same, so that a later call on the handle finds an empty listing and
    sends nothing. *)
Theorem nil_listing_panics (R : Remote) (w : World) (d : openDir) (count count' : Z)
        (resp : Response Body) :
  getItemsOnce d = false -> items d = [] -> offset d = 0%Z ->
  clientDo Authenticated w (listingRequest (driveID d) (dirID d)) = inr resp ->
  (StatusCode resp = 204%Z
   \/ ((StatusCode resp < 400)%Z /\ decodeItems (RespBody resp) = inr None)) ->
  exists w' d',
    openDir_ReadDir w d count = (w', d', Panic "nil pointer dereference")
    /\ openDir_ReadDir w' d' count'
       = (w', d', if (count' >? 0)%Z then Err EOF else Ok []).
Proof.
  intros Hfresh Hitems Hoff Hdo Hnil.
  assert (Hres : listDriveItems w (driveID d) (dirID d)
                 = ((w ++ [(Authenticated, listingRequest (driveID d) (dirID d))])%list,
                    Ok None)).
  { rewrite listDriveItems_unfold. unfold doRequest, Do. rewrite Hdo.
    destruct Hnil as [ H204 | [Hlt Hnull] ].
    - rewrite H204. reflexivity.
    - assert (E : (StatusCode resp >=? 400)%Z = false).
      { destruct (Z.geb_spec (StatusCode resp) 400); [ lia | reflexivity ]. }
      rewrite E. destruct (negb (StatusCode resp =? 204)%Z); [ | reflexivity ].
      rewrite Hnull. reflexivity. }
  exists (w ++ [(Authenticated, listingRequest (driveID d) (dirID d))])%list,
         (withItems d true (items d)).
  split.
  - unfold openDir_ReadDir, getItems. rewrite Hfresh, Hres. reflexivity.
  - apply ReadDir_nothing_remains.
    + reflexivity.
    + unfold cursorOK. simpl. rewrite Hitems, Hoff. simpl. lia.
    + unfold remaining. simpl. rewrite Hitems. destruct (Z.to_nat (offset d)); reflexivity.
Qed.

Lemma nil_listing_panics_witness :
  exists w' d',
    @openDir_ReadDir noContentRemote [] rootDir (-1)
    = (w', d', Panic "nil pointer dereference")
    /\ @openDir_ReadDir noContentRemote w' d' (-1) = (w', d', Ok []).
Proof.
  exact (nil_listing_panics noContentRemote [] rootDir (-1) (-1)
           (mkResponse 204 "204 No Content" [] Malformed)
           eq_refl eq_refl eq_refl eq_refl (or_introl eq_refl)).
Defined.

Lemma present_None_In (l : list (option driveItem)) :
  List.In None l -> present l = None.
Proof.
  induction l as [ | [ x | ] rest IH ]; simpl; intros H.
  - contradiction.
  - destruct H as [ H | H ]; [ discriminate | ]. rewrite (IH H). reflexivity.
  - reflexivity.
Qed.

(** X25.  A listing can hold a nil pointer, the image of a JSON [null] in
    the array of children.  On a fetched handle whose cursor lies within
    the listing, a call whose batch spans a nil element panics on it: no
    entry is returned, no request is sent, and the cursor and the listing
    are left as they were, so that the same call panics again. *)
Theorem nil_element_panics (R : Remote) (w : World) (d : openDir) (count : Z) :
  getItemsOnce d = true -> cursorOK d ->
  List.In None (if (count >? 0)%Z
                then List.firstn (Z.to_nat count) (remaining d)
                else remaining d) ->
  openDir_ReadDir w d count = (w, d, Panic "nil pointer dereference").
Proof.
  intros Hdone Hc Hin.
  rewrite (ReadDir_fetched w d count Hdone Hc). cbv zeta.
  set (n := Z.of_nat (List.length (remaining d))).
  set (k := if (count >? 0)%Z && (n >? count)%Z then count else n).
  assert (Hslice : List.firstn (Z.to_nat k) (remaining d)
                   = if (count >? 0)%Z
                     then List.firstn (Z.to_nat count) (remaining d)
                     else remaining d).
  { unfold k. destruct (count >? 0)%Z; simpl andb.
    - destruct (Z.gtb_spec n count); [ reflexivity | ].
      rewrite !List.firstn_all2 by (unfold n in *; lia). reflexivity.
    - apply List.firstn_all2. unfold n. lia. }
  assert (Hn : (n =? 0)%Z = false).
  { apply Z.eqb_neq. unfold n. destruct (remaining d) as [ | x rest ]; simpl; [ | lia ].
    destruct (count >? 0)%Z; [ rewrite List.firstn_nil in Hin | ]; contradiction. }
  rewrite Hn. simpl andb. cbv iota.
  rewrite Hslice, (present_None_In _ Hin). reflexivity.
Qed.

(** X25 at a handle over [c], [null], read with [count = 2]. *)
Lemma nil_element_panics_witness :
  @openDir_ReadDir nullRemote [] nullDir 2
  = ([], nullDir, Panic "nil pointer dereference").
Proof.
  apply (nil_element_panics nullRemote [] nullDir 2).
  - reflexivity.
  - unfold cursorOK. simpl. lia.
  - right. left. reflexivity.
Defined.

(** The same listing through the facade, and read short of the nil. *)
Example ReadDir_null_child :
  snd (@ReadDir nullRemote defaultFS [] ".") = Panic "nil pointer dereference"
  /\ snd (@openDir_ReadDir nullRemote [] nullDir 1)
     = Ok [mkEntry (mkInfo "c" 3 365 1700000000 false)].
Proof. split; reflexivity. Qed.

(** ** [FS.ReadDir] on a folder *)

(** X16.  [FS.ReadDir] on a path that resolves to a folder sends two
    requests, both with the authenticated client: the resolution of the
    path, then the listing of the children of the item by its id on the
    drive of the file system; when the listing fails, its error is the
    error of [ReadDir]. *)
Theorem ReadDir_of_folder (R : Remote) (f : FS) (w w' : World) (name0 : string)
        (item : driveItem) :
  validatePath name0 = None ->
  getDriveItemsByPath w (DriveID (opts f)) (itemPathOf name0) = (w', Ok (Some item)) ->
  Folder item <> None ->
  fst (ReadDir f w name0)
  = (w ++ [(Authenticated, resolutionRequest (DriveID (opts f)) (itemPathOf name0));
           (Authenticated, listingRequest (DriveID (opts f)) (ID item))])%list
  /\ (forall w2 err,
        listDriveItems w' (DriveID (opts f)) (ID item) = (w2, Err err) ->
        snd (ReadDir f w name0) = Err err).
Proof.
  intros Hv Hres Hfolder.
  assert (Hw : w' = (w ++ [(Authenticated,
                            resolutionRequest (DriveID (opts f)) (itemPathOf name0))])%list).
  { rewrite <- getDriveItemsByPath_world, Hres. reflexivity. }
  unfold ReadDir. rewrite (Open_resolved f w w' name0 item Hv Hres).
  destruct (Folder item) as [ [] | ]; [ | congruence ]. simpl isSome. cbv iota.
  set (dir := mkOpenDir _ f (ID item) (DriveID (opts f)) false [] 0).
  split.
  - pose proof (ReadDir_world w' dir (-1)) as Hrw.
    destruct (openDir_ReadDir w' dir (-1)) as [[w2 d2] r]. simpl in Hrw |- *.
    rewrite Hrw. unfold getItems. simpl.
    pose proof (listDriveItems_world w' (DriveID (opts f)) (ID item)) as Hl.
    destruct (listDriveItems w' (DriveID (opts f)) (ID item))
      as [w3 [ [ resp | ] | err | m ]]; simpl in *; rewrite Hl, Hw;
      rewrite <- List.app_assoc; reflexivity.
  - intros w2 err Hlist.
    unfold openDir_ReadDir, getItems. simpl. rewrite Hlist. reflexivity.
Qed.

Lemma ReadDir_of_folder_witness :
  fst (@ReadDir timeoutRemote defaultFS [] ".")
  = [(Authenticated, resolutionRequest "" ""); (Authenticated, listingRequest "" "root")]
  /\ snd (@ReadDir timeoutRemote defaultFS [] ".")
     = Err (ErrWrap "Get" (ErrOpaque "context deadline exceeded")).
Proof.
  destruct (ReadDir_of_folder timeoutRemote defaultFS []
              [(Authenticated, resolutionRequest "" "")] "."
              (folderItem "root" "onedrivefs_test" true 62)
              eq_refl eq_refl ltac:(discriminate)) as [Hw He].
  split; [ exact Hw | ].
  exact (He [(Authenticated, resolutionRequest "" "");
             (Authenticated, listingRequest "" "root")]
            (ErrWrap "Get" (ErrOpaque "context deadline exceeded")) eq_refl).
Defined.

(** ** Entries and file information *)

Lemma fillEntries_images (its : list (option driveItem)) (off : Z) (k : nat) :
  forall (i : Z) (l : list dirEntry),
    fillEntries its off i k = inr l ->
    Forall (fun e => exists item, List.In (Some item) its /\ e = entryOf item) l.
Proof.
  induction k as [ | k IH ]; intros i l H; simpl in H.
  - injection H as <-. constructor.
  - destruct (index its (off + i)) as [ [ item | ] | ] eqn:Ei;
      [ | discriminate | discriminate ].
    destruct (fillEntries its off (i + 1) k) as [ m | rest ] eqn:Er; [ discriminate | ].
    injection H as <-. constructor.
    + exists item. split; [ | reflexivity ].
      unfold index in Ei. destruct (off + i <? 0)%Z; [ discriminate | ].
      eapply List.nth_error_In. exact Ei.
    + eapply IH. exact Er.
Qed.

(** X17.  Every entry that [ReadDir] returns, on any handle and for any
    count, is made from an item of the listing the handle holds
    afterwards; its [IsDir], its [Type] and the mode of its [Info] agree:
    the type bits are the directory bit for a folder and none for a file,
    the permission bits are [0o555], and the name is the remote name. *)
Theorem entries_are_consistent (R : Remote) (w w' : World) (d d' : openDir)
        (count : Z) (batch : list dirEntry) :
  openDir_ReadDir w d count = (w', d', Ok batch) ->
  Forall (fun e =>
            (exists item, List.In (Some item) (items d') /\ e = entryOf item
                          /\ dirEntry_Name e = Name item)
            /\ dirEntry_IsDir e = FileMode_IsDir (mode (entryInfo e))
            /\ dirEntry_Type e = (if dirEntry_IsDir e then ModeDir else 0%Z)
            /\ FileMode_Perm (mode (entryInfo e)) = 365%Z)
         batch.
Proof.
  unfold openDir_ReadDir.
  destruct (getItems w d) as [[w1 d1] [ | err | m ]]; try discriminate.
  destruct (_ && _); [ discriminate | ]. cbv zeta.
  destruct (_ <? 0)%Z; [ discriminate | ].
  destruct (fillEntries _ _ _ _) as [ m | l ] eqn:El; [ discriminate | ].
  intros H. injection H as _ <- <-.
  apply fillEntries_images in El.
  apply Forall_forall. intros e He.
  apply (Permutation_in _ (SortFunc_perm l)) in He.
  rewrite Forall_forall in El. destruct (El e He) as (item & Hin & ->).
  split; [ exists item; repeat split; exact Hin | ].
  unfold dirEntry_IsDir, dirEntry_Type, entryOf. simpl.
  destruct (isSome (Folder item)); repeat split.
Qed.

Lemma entries_are_consistent_witness :
  Forall (fun e =>
            (exists item, List.In (Some item) (List.map Some threeItems)
                          /\ e = entryOf item
                          /\ dirEntry_Name e = Name item)
            /\ dirEntry_IsDir e = FileMode_IsDir (mode (entryInfo e))
            /\ dirEntry_Type e = (if dirEntry_IsDir e then ModeDir else 0%Z)
            /\ FileMode_Perm (mode (entryInfo e)) = 365%Z)
         [mkEntry (mkInfo "a" 1 365 1700000000 false);
          mkEntry (mkInfo "b" 2 365 1700000000 false)].
Proof.
  exact (entries_are_consistent unsortedRemote [] [] midwayDir
           (withOffset midwayDir 3) 5 _ eq_refl).
Defined.

(** X18.  The file information of the entry [ReadDir] makes for an item
    is the file information [Stat] returns for a path resolved to that
    item, but for the name of a folder that carries the root marker, which
    [Stat] reports as ["."] and the entry under its remote name. *)
Theorem entry_agrees_with_Stat (R : Remote) (f : FS) (w w' : World) (name0 : string)
        (item : driveItem) :
  validatePath name0 = None ->
  getDriveItemsByPath w (DriveID (opts f)) (itemPathOf name0) = (w', Ok (Some item)) ->
  exists info,
    Stat f w name0 = (w', Ok info)
    /\ size info = size (entryInfo (entryOf item))
    /\ mode info = mode (entryInfo (entryOf item))
    /\ modTime info = modTime (entryInfo (entryOf item))
    /\ isDir info = isDir (entryInfo (entryOf item))
    /\ ((Folder item = None \/ Root item = None) -> info = entryInfo (entryOf item))
    /\ (Folder item <> None -> Root item <> None -> name info = ".").
Proof.
  intros Hv Hres. rewrite (Stat_valid f w name0 Hv), Hres.
  unfold entryOf.
  destruct (Folder item) as [ [] | ] eqn:Ef; simpl isSome; cbv iota;
    eexists; (split; [ reflexivity | ]); simpl; repeat split.
  - intros [ H | H ]; [ discriminate | ]. rewrite H. reflexivity.
  - intros _ Hroot. destruct (Root item); [ reflexivity | congruence ].
  - intros H _. congruence.
Qed.

Lemma entry_agrees_with_Stat_witness :
  snd (@Stat goneRemote defaultFS [] "README.md")
  = Ok (entryInfo (entryOf (fileItem "id-r" "README.md" 33))).
Proof.
  destruct (entry_agrees_with_Stat goneRemote defaultFS []
              (fst (@Stat goneRemote defaultFS [] "README.md")) "README.md"
              (fileItem "id-r" "README.md" 33) eq_refl eq_refl)
    as (info & HS & _ & _ & _ & _ & Heq & _).
  rewrite HS. simpl. rewrite (Heq (or_introl eq_refl)). reflexivity.
Defined.

(** ** Escaped paths and the addresses of requests *)

Lemma string_of_list_ascii_app (l1 l2 : list ascii) :
  string_of_list_ascii (l1 ++ l2) = string_of_list_ascii l1 ++ string_of_list_ascii l2.
Proof. induction l1 as [ | c l1 IH ]; simpl; [ reflexivity | rewrite IH; reflexivity ]. Qed.

Lemma get_In (s : string) :
  forall (k : nat) (c : ascii), String.get k s = Some c -> List.In c (list_ascii_of_string s).
Proof.
  induction s as [ | a s IH ]; intros k c H; simpl in H; [ discriminate | ].
  destruct k as [ | k ].
  - injection H as <-. left. reflexivity.
  - right. eapply IH. exact H.
Qed.

Lemma hexDigit_upperhex (n : N) :
  List.In (url.hexDigit n) (list_ascii_of_string url.upperhex).
Proof.
  unfold url.hexDigit.
  destruct (String.get (N.to_nat n) url.upperhex) as [ c | ] eqn:E.
  - eapply get_In. exact E.
  - left. reflexivity.
Qed.

(** The bytes a path segment is escaped to: the byte itself when it needs
    no escape, or [%] and two upper-case hexadecimal digits. *)
Lemma escapeByte_segment (x c : ascii) :
  List.In c (url.escapeByte x url.encodePathSegment) ->
  (c = x /\ url.shouldEscape x url.encodePathSegment = false)
  \/ List.In c (list_ascii_of_string "%0123456789ABCDEF").
Proof.
  unfold url.escapeByte.
  destruct (url.shouldEscape x url.encodePathSegment) eqn:E.
  - rewrite andb_false_r. intros [ <- | [ <- | [ <- | [] ] ] ]; right.
    + left. reflexivity.
    + right. apply hexDigit_upperhex.
    + right. apply hexDigit_upperhex.
  - intros [ <- | [] ]. left. split; reflexivity.
Qed.

Lemma escape_bytes (s : string) (c : ascii) :
  List.In c (list_ascii_of_string (url.PathEscape s)) ->
  (exists x, List.In x (list_ascii_of_string s) /\ c = x
             /\ url.shouldEscape x url.encodePathSegment = false)
  \/ List.In c (list_ascii_of_string "%0123456789ABCDEF").
Proof.
  unfold url.PathEscape, url.escape.
  rewrite list_ascii_of_string_of_list_ascii. intros H.
  apply List.in_flat_map in H. destruct H as (x & Hx & Hc).
  destruct (escapeByte_segment x c Hc) as [ [-> He] | Hhex ].
  - left. exists x. repeat split; assumption.
  - right. exact Hhex.
Qed.

(** X19.  An escaped id or item path is one URL path segment: it holds no
    [/], no [?], no [#], no space, no [;] and no [,], so that it can
    neither add a path segment nor start a query or a fragment. *)
Theorem PathEscape_single_segment (s : string) (c : ascii) :
  List.In c (list_ascii_of_string (url.PathEscape s)) ->
  c <> "/"%char /\ c <> "?"%char /\ c <> "#"%char /\ c <> " "%char
  /\ c <> ";"%char /\ c <> ","%char.
Proof.
  intros H. destruct (escape_bytes s c H) as [ (x & _ & -> & He) | Hhex ].
  - repeat split; intros ->; vm_compute in He; discriminate.
  - simpl in Hhex.
    repeat (destruct Hhex as [ <- | Hhex ];
            [ repeat split; discriminate | ]).
    destruct Hhex.
Qed.

Lemma PathEscape_single_segment_witness :
  url.PathEscape "a/b c?d" = "a%2Fb%20c%3Fd"
  /\ "%"%char <> "/"%char.
Proof.
  split; [ reflexivity | ].
  exact (proj1 (PathEscape_single_segment "a/b c?d" "%"%char
                  ltac:(vm_compute; tauto))).
Defined.

(** *** [resolvePath] on plain segments *)

Lemma splitSlash_scan (s : list ascii) :
  forall (cur rest : list ascii),
    ~ List.In "/"%char s ->
    url.splitSlash cur (s ++ rest) = url.splitSlash (List.rev s ++ cur) rest.
Proof.
  induction s as [ | c s IH ]; intros cur rest Hno; simpl.
  - reflexivity.
  - destruct (Ascii.eqb_spec c "/"%char) as [ -> | _ ].
    + exfalso. apply Hno. left. reflexivity.
    + rewrite IH by (intros Hin; apply Hno; right; exact Hin).
      rewrite <- List.app_assoc. reflexivity.
Qed.

Lemma splitSlash_join (segs : list (list ascii)) :
  forall (cur s : list ascii),
    Forall (fun x => ~ List.In "/"%char x) (s :: segs) ->
    url.splitSlash cur (joinSlash (s :: segs))
    = string_of_list_ascii (List.rev cur ++ s) :: List.map string_of_list_ascii segs.
Proof.
  induction segs as [ | t segs IH ]; intros cur s Hall;
    inversion Hall as [ | ? ? Hs Hrest ]; subst.
  - simpl joinSlash. rewrite <- (List.app_nil_r s) at 1.
    rewrite splitSlash_scan by exact Hs. simpl.
    rewrite List.rev_app_distr, List.rev_involutive. reflexivity.
  - change (joinSlash (s :: t :: segs)) with (s ++ "/"%char :: joinSlash (t :: segs))%list.
    rewrite splitSlash_scan by exact Hs.
    change (url.splitSlash (List.rev s ++ cur) ("/"%char :: joinSlash (t :: segs)))
      with (string_of_list_ascii (List.rev (List.rev s ++ cur))
              :: url.splitSlash [] (joinSlash (t :: segs))).
    rewrite IH by exact Hrest.
    rewrite List.rev_app_distr, List.rev_involutive. reflexivity.
Qed.

Lemma plain_not_dot (s : list ascii) :
  plainSegment s ->
  String.eqb (string_of_list_ascii s) "." = false
  /\ String.eqb (string_of_list_ascii s) ".." = false.
Proof.
  intros (_ & H1 & H2). split; apply String.eqb_neq; intros E;
    apply (f_equal list_ascii_of_string) in E;
    rewrite list_ascii_of_string_of_list_ascii in E; simpl in E; congruence.
Qed.

Lemma resolveLoop_plain (segs : list (list ascii)) :
  forall (dst : list ascii) (first : bool),
    Forall plainSegment segs -> segs <> [] ->
    url.resolveLoop (List.map string_of_list_ascii segs) dst first
    = (dst ++ (if first then [] else ["/"%char]) ++ joinSlash segs)%list.
Proof.
  induction segs as [ | s segs IH ]; intros dst first Hall Hne; [ congruence | ].
  inversion Hall as [ | ? ? Hs Hrest ]; subst.
  destruct (plain_not_dot s Hs) as [Hd Hdd].
  simpl List.map. cbn [url.resolveLoop]. rewrite Hd, Hdd.
  rewrite list_ascii_of_string_of_list_ascii.
  destruct segs as [ | t segs ].
  - simpl. destruct first; simpl; rewrite <- ?List.app_assoc; reflexivity.
  - rewrite IH by (assumption || discriminate).
    change (joinSlash (s :: t :: segs)) with (s ++ "/"%char :: joinSlash (t :: segs))%list.
    destruct first; simpl; rewrite <- ?List.app_assoc; simpl; reflexivity.
Qed.

Lemma last_map_cons (segs : list (list ascii)) (x : list ascii) :
  List.last (List.map string_of_list_ascii (x :: segs)) ""
  = string_of_list_ascii (List.last (x :: segs) []).
Proof.
  revert x. induction segs as [ | t segs IH ]; intros x; [ reflexivity | ].
  change (List.last (List.map string_of_list_ascii (x :: t :: segs)) "")
    with (List.last (List.map string_of_list_ascii (t :: segs)) "").
  rewrite IH. reflexivity.
Qed.

Lemma last_plain (segs : list (list ascii)) (x : list ascii) :
  Forall plainSegment (x :: segs) -> plainSegment (List.last (x :: segs) []).
Proof.
  revert x. induction segs as [ | t segs IH ]; intros x Hall;
    inversion Hall; subst; [ assumption | ].
  change (List.last (x :: t :: segs) []) with (List.last (t :: segs) []).
  apply IH. assumption.
Qed.

(** A rooted reference made of plain segments resolves to itself,
    against any base. *)
Lemma resolvePath_rooted (base : string) (segs : list (list ascii)) :
  Forall plainSegment segs -> segs <> [] ->
  url.resolvePath base (string_of_list_ascii ("/"%char :: joinSlash segs))
  = string_of_list_ascii ("/"%char :: joinSlash segs).
Proof.
  intros Hall Hne. unfold url.resolvePath.
  rewrite list_ascii_of_string_of_list_ascii.
  change (Ascii.eqb "/"%char "/"%char) with true. cbv iota.
  destruct segs as [ | s segs ]; [ congruence | ].
  assert (Hsplit : url.splitSlash [] ("/"%char :: joinSlash (s :: segs))
                   = "" :: List.map string_of_list_ascii (s :: segs)).
  { change (url.splitSlash [] ("/"%char :: joinSlash (s :: segs)))
      with ("" :: url.splitSlash [] (joinSlash (s :: segs))).
    rewrite splitSlash_join.
    - reflexivity.
    - eapply Forall_impl; [ | exact Hall ]. intros x Hx. exact (proj1 Hx). }
  rewrite Hsplit.
  change (List.last ("" :: List.map string_of_list_ascii (s :: segs)) "")
    with (List.last (List.map string_of_list_ascii (s :: segs)) "").
  rewrite last_map_cons.
  destruct (plain_not_dot _ (last_plain segs s Hall)) as [Hd Hdd].
  rewrite Hd, Hdd. simpl orb. cbv iota.
  change (url.resolveLoop ("" :: List.map string_of_list_ascii (s :: segs)) [] true)
    with (url.resolveLoop (List.map string_of_list_ascii (s :: segs)) [] false).
  rewrite resolveLoop_plain by (assumption || discriminate).
  reflexivity.
Qed.

(** A reference made of plain segments, the first of which is not empty,
    resolves against the base [/v1.0/] to the base followed by the
    reference. *)
Lemma resolvePath_relative (c : ascii) (s : list ascii) (segs : list (list ascii)) :
  c <> "/"%char ->
  Forall plainSegment ((c :: s) :: segs) ->
  url.resolvePath "/v1.0/" (string_of_list_ascii (joinSlash ((c :: s) :: segs)))
  = "/v1.0/" ++ string_of_list_ascii (joinSlash ((c :: s) :: segs)).
Proof.
  intros Hc Hall.
  assert (Hall' : Forall plainSegment (list_ascii_of_string "v1.0" :: (c :: s) :: segs)).
  { constructor; [ | exact Hall ].
    split; [ simpl; intuition discriminate | split; discriminate ]. }
  transitivity
    (url.resolvePath "/v1.0/"
       (string_of_list_ascii
          ("/"%char :: joinSlash (list_ascii_of_string "v1.0" :: (c :: s) :: segs)))).
  - change (joinSlash (list_ascii_of_string "v1.0" :: (c :: s) :: segs))
      with (list_ascii_of_string "v1.0" ++ "/"%char :: joinSlash ((c :: s) :: segs))%list.
    assert (Hhead : exists rest, joinSlash ((c :: s) :: segs) = c :: rest).
    { destruct segs; simpl; eexists; reflexivity. }
    destruct Hhead as [rest Hrest]. rewrite Hrest.
    unfold url.resolvePath. rewrite !list_ascii_of_string_of_list_ascii.
    destruct (Ascii.eqb_spec c "/"%char) as [ E | _ ]; [ contradiction | ].
    reflexivity.
  - rewrite (resolvePath_rooted "/v1.0/" _ Hall') by discriminate.
    reflexivity.
Qed.

(** *** Escaped ids as plain segments *)

Lemma escapeByte_nonempty (x : ascii) : url.escapeByte x url.encodePathSegment <> [].
Proof.
  unfold url.escapeByte.
  destruct (url.shouldEscape x url.encodePathSegment); [ | discriminate ].
  rewrite andb_false_r. discriminate.
Qed.

Lemma escaped_single_byte (l : list ascii) (c : ascii) :
  List.flat_map (fun x => url.escapeByte x url.encodePathSegment) l = [c] -> l = [c].
Proof.
  destruct l as [ | x l ]; simpl; [ discriminate | ].
  unfold url.escapeByte at 1.
  destruct (url.shouldEscape x url.encodePathSegment).
  - rewrite andb_false_r. simpl. discriminate.
  - simpl. intros H. injection H as -> Hrest.
    destruct l as [ | y l ]; [ reflexivity | ].
    simpl in Hrest. exfalso.
    destruct (url.escapeByte y url.encodePathSegment) eqn:E;
      [ exact (escapeByte_nonempty y E) | discriminate ].
Qed.

Lemma escaped_two_dots (l : list ascii) :
  List.flat_map (fun x => url.escapeByte x url.encodePathSegment) l
  = ["."%char; "."%char] ->
  l = ["."%char; "."%char].
Proof.
  destruct l as [ | x l ]; simpl; [ discriminate | ].
  unfold url.escapeByte at 1.
  destruct (url.shouldEscape x url.encodePathSegment).
  - rewrite andb_false_r. simpl. discriminate.
  - simpl. intros H. injection H as -> Hrest.
    apply escaped_single_byte in Hrest. rewrite Hrest. reflexivity.
Qed.

Lemma PathEscape_plain (s : string) :
  s <> "." -> s <> ".." ->
  plainSegment (list_ascii_of_string (url.PathEscape s)).
Proof.
  intros Hdot Hdots. split; [ | split ].
  - intros Hin. destruct (escape_bytes s _ Hin) as [ (x & _ & <- & He) | Hhex ].
    + vm_compute in He. discriminate.
    + simpl in Hhex.
      repeat (destruct Hhex as [ E | Hhex ]; [ discriminate E | ]). destruct Hhex.
  - unfold url.PathEscape, url.escape. rewrite list_ascii_of_string_of_list_ascii.
    intros H. apply escaped_single_byte in H. apply Hdot.
    rewrite <- (string_of_list_ascii_of_string s), H. reflexivity.
  - unfold url.PathEscape, url.escape. rewrite list_ascii_of_string_of_list_ascii.
    intros H. apply escaped_two_dots in H. apply Hdots.
    rewrite <- (string_of_list_ascii_of_string s), H. reflexivity.
Qed.

Lemma constant_plain (s : string) :
  (forallb (fun c => negb (Ascii.eqb c "/"%char)) (list_ascii_of_string s)
   && negb (String.eqb s ".") && negb (String.eqb s ".."))%bool = true ->
  plainSegment (list_ascii_of_string s).
Proof.
  intros H. apply andb_prop in H. destruct H as [H Hdd].
  apply andb_prop in H. destruct H as [Hno Hd].
  split; [ | split ].
  - intros Hin. rewrite forallb_forall in Hno. specialize (Hno _ Hin).
    discriminate Hno.
  - intros E. apply (f_equal string_of_list_ascii) in E.
    rewrite string_of_list_ascii_of_string in E. subst s. discriminate Hd.
  - intros E. apply (f_equal string_of_list_ascii) in E.
    rewrite string_of_list_ascii_of_string in E. subst s. discriminate Hdd.
Qed.

Lemma append_assoc (a b c : string) : (a ++ b) ++ c = a ++ (b ++ c).
Proof. induction a as [ | x a IH ]; simpl; [ reflexivity | rewrite IH; reflexivity ]. Qed.

Ltac same_string :=
  repeat (progress (simpl String.append) || rewrite append_assoc); reflexivity.

Ltac as_segments :=
  repeat (simpl joinSlash; simpl string_of_list_ascii; simpl String.append;
          rewrite ?string_of_list_ascii_app, ?string_of_list_ascii_of_string);
  reflexivity.

Ltac plain_segments :=
  repeat (apply Forall_cons || apply Forall_nil);
  try (apply constant_plain; reflexivity);
  try (apply PathEscape_plain; assumption).

(** The references of the package that hold an escaped id. *)
Lemma resolve_items (folder : string) :
  folder <> "." -> folder <> ".." ->
  url.resolvePath "/v1.0/" ("me/drive/items/" ++ url.PathEscape folder ++ "/children")
  = "/v1.0/me/drive/items/" ++ url.PathEscape folder ++ "/children".
Proof.
  intros Hf Hff.
  assert (E : "me/drive/items/" ++ url.PathEscape folder ++ "/children"
              = string_of_list_ascii
                  (joinSlash (("m"%char :: ["e"%char])
                                :: [list_ascii_of_string "drive";
                                    list_ascii_of_string "items";
                                    list_ascii_of_string (url.PathEscape folder);
                                    list_ascii_of_string "children"])))
    by as_segments.
  rewrite E, resolvePath_relative; [ rewrite <- E; reflexivity | discriminate | ].
  constructor; [ apply (constant_plain "me"); reflexivity | plain_segments ].
Qed.

Lemma resolve_drives_root (drive : string) :
  drive <> "." -> drive <> ".." ->
  url.resolvePath "/v1.0/" ("me/drives/" ++ url.PathEscape drive ++ "/root/children")
  = "/v1.0/me/drives/" ++ url.PathEscape drive ++ "/root/children".
Proof.
  intros Hd Hdd.
  assert (E : "me/drives/" ++ url.PathEscape drive ++ "/root/children"
              = string_of_list_ascii
                  (joinSlash (("m"%char :: ["e"%char])
                                :: [list_ascii_of_string "drives";
                                    list_ascii_of_string (url.PathEscape drive);
                                    list_ascii_of_string "root";
                                    list_ascii_of_string "children"])))
    by as_segments.
  rewrite E, resolvePath_relative; [ rewrite <- E; reflexivity | discriminate | ].
  constructor; [ apply (constant_plain "me"); reflexivity | plain_segments ].
Qed.

Lemma resolve_drives_items (drive folder : string) :
  drive <> "." -> drive <> ".." -> folder <> "." -> folder <> ".." ->
  url.resolvePath "/v1.0/"
    ("me/drives/" ++ url.PathEscape drive ++ "/items/"
     ++ url.PathEscape folder ++ "/children")
  = "/v1.0/me/drives/" ++ url.PathEscape drive ++ "/items/"
    ++ url.PathEscape folder ++ "/children".
Proof.
  intros Hd Hdd Hf Hff.
  assert (E : "me/drives/" ++ url.PathEscape drive ++ "/items/"
              ++ url.PathEscape folder ++ "/children"
              = string_of_list_ascii
                  (joinSlash (("m"%char :: ["e"%char])
                                :: [list_ascii_of_string "drives";
                                    list_ascii_of_string (url.PathEscape drive);
                                    list_ascii_of_string "items";
                                    list_ascii_of_string (url.PathEscape folder);
                                    list_ascii_of_string "children"])))
    by as_segments.
  rewrite E, resolvePath_relative; [ rewrite <- E; reflexivity | discriminate | ].
  constructor; [ apply (constant_plain "me"); reflexivity | plain_segments ].
Qed.

Lemma resolve_root_path (itemPath : string) :
  itemPath <> "." -> itemPath <> ".." ->
  url.resolvePath "/v1.0/" ("me/drive/root" ++ ":/" ++ url.PathEscape itemPath)
  = "/v1.0/me/drive/root:/" ++ url.PathEscape itemPath.
Proof.
  intros Hp Hpp.
  assert (E : "me/drive/root" ++ ":/" ++ url.PathEscape itemPath
              = string_of_list_ascii
                  (joinSlash (("m"%char :: ["e"%char])
                                :: [list_ascii_of_string "drive";
                                    list_ascii_of_string "root:";
                                    list_ascii_of_string (url.PathEscape itemPath)])))
    by as_segments.
  rewrite E, resolvePath_relative; [ rewrite <- E; reflexivity | discriminate | ].
  constructor; [ apply (constant_plain "me"); reflexivity | plain_segments ].
Qed.

Lemma resolve_drive_root (drive : string) :
  drive <> "." -> drive <> ".." ->
  url.resolvePath "/v1.0/" ("/v1.0/drives/" ++ url.PathEscape drive ++ "/root")
  = "/v1.0/drives/" ++ url.PathEscape drive ++ "/root".
Proof.
  intros Hd Hdd.
  assert (E : "/v1.0/drives/" ++ url.PathEscape drive ++ "/root"
              = string_of_list_ascii
                  ("/"%char
                     :: joinSlash [list_ascii_of_string "v1.0";
                                   list_ascii_of_string "drives";
                                   list_ascii_of_string (url.PathEscape drive);
                                   list_ascii_of_string "root"]))
    by as_segments.
  rewrite E, resolvePath_rooted; [ reflexivity | | discriminate ].
  plain_segments.
Qed.

Lemma resolve_drive_root_path (drive itemPath : string) :
  drive <> "." -> drive <> ".." -> itemPath <> "." -> itemPath <> ".." ->
  url.resolvePath "/v1.0/"
    (("/v1.0/drives/" ++ url.PathEscape drive ++ "/root")
     ++ ":/" ++ url.PathEscape itemPath)
  = "/v1.0/drives/" ++ url.PathEscape drive ++ "/root:/" ++ url.PathEscape itemPath.
Proof.
  intros Hd Hdd Hp Hpp.
  assert (E : ("/v1.0/drives/" ++ url.PathEscape drive ++ "/root")
              ++ ":/" ++ url.PathEscape itemPath
              = string_of_list_ascii
                  ("/"%char
                     :: joinSlash [list_ascii_of_string "v1.0";
                                   list_ascii_of_string "drives";
                                   list_ascii_of_string (url.PathEscape drive);
                                   list_ascii_of_string "root:";
                                   list_ascii_of_string (url.PathEscape itemPath)])).
  { transitivity ("/v1.0/drives/" ++ url.PathEscape drive ++ "/root:/"
                  ++ url.PathEscape itemPath); [ same_string | as_segments ]. }
  rewrite E, resolvePath_rooted; [ rewrite <- E; same_string | | discriminate ].
  plain_segments.
Qed.

(** X20.  The address of a listing request: for every drive id and
    folder id other than [.] and [..], the request is a [GET] of
    [https://graph.microsoft.com/v1.0/] followed by [me/drive] (default
    drive) or [me/drives/<escaped drive id>], then [/root] (no folder id)
    or [/items/<escaped folder id>], then [/children], with the query
    [$orderby=name asc] in its encoded form. *)
Theorem listing_request_address (drive folder : string) :
  drive <> "." -> drive <> ".." -> folder <> "." -> folder <> ".." ->
  listDriveItems_Request drive folder
  = Ok (mkRequest "GET"
          (url.mkURL "https" "graph.microsoft.com"
             ("/v1.0/"
              ++ (if String.eqb drive "" then "me/drive"
                  else "me/drives/" ++ url.PathEscape drive)
              ++ (if String.eqb folder "" then "/root"
                  else "/items/" ++ url.PathEscape folder)
              ++ "/children")
             "%24orderby=name+asc")).
Proof.
  intros Hd Hdd Hf Hff.
  assert (Hpath : url.resolvePath "/v1.0/" (listDriveItems_URL drive folder)
                  = "/v1.0/"
                    ++ (if String.eqb drive "" then "me/drive"
                        else "me/drives/" ++ url.PathEscape drive)
                    ++ (if String.eqb folder "" then "/root"
                        else "/items/" ++ url.PathEscape folder)
                    ++ "/children").
  { unfold listDriveItems_URL.
    destruct (String.eqb drive ""); destruct (String.eqb folder ""); cbn [negb].
    - reflexivity.
    - rewrite (resolve_items folder Hf Hff). same_string.
    - rewrite (resolve_drives_root drive Hd Hdd).
      same_string.
    - rewrite (resolve_drives_items drive folder Hd Hdd Hf Hff).
      same_string. }
  exact (f_equal
           (fun p => Ok (mkRequest "GET"
                           (url.mkURL "https" "graph.microsoft.com" p
                                      "%24orderby=name+asc")))
           Hpath).
Qed.

Lemma listing_request_address_witness :
  listDriveItems_Request "b!x" "01 A/B"
  = Ok (mkRequest "GET"
          (url.mkURL "https" "graph.microsoft.com"
             "/v1.0/me/drives/b%21x/items/01%20A%2FB/children" "%24orderby=name+asc")).
Proof.
  rewrite (listing_request_address "b!x" "01 A/B") by discriminate.
  reflexivity.
Defined.

(** X21.  The address of a resolution: for every drive id and item path
    other than [.] and [..], the request is a [GET] of
    [https://graph.microsoft.com/v1.0/] followed by [me/drive/root]
    (default drive) or [drives/<escaped drive id>/root], and by
    [:/<escaped item path>] when the item path is not empty; the item path
    is escaped as a whole, its slashes included. *)
Theorem resolution_request_address (drive itemPath : string) :
  drive <> "." -> drive <> ".." -> itemPath <> "." -> itemPath <> ".." ->
  resolutionRequest drive itemPath
  = mkRequest "GET"
      (url.mkURL "https" "graph.microsoft.com"
         ("/v1.0/"
          ++ (if String.eqb drive "" then "me/drive"
              else "drives/" ++ url.PathEscape drive)
          ++ "/root"
          ++ (if String.eqb itemPath "" then "" else ":/" ++ url.PathEscape itemPath))
         "").
Proof.
  intros Hd Hdd Hp Hpp.
  assert (Hpath : url.resolvePath "/v1.0/" (getDriveItemsByPath_URL drive itemPath)
                  = "/v1.0/"
                    ++ (if String.eqb drive "" then "me/drive"
                        else "drives/" ++ url.PathEscape drive)
                    ++ "/root"
                    ++ (if String.eqb itemPath "" then ""
                        else ":/" ++ url.PathEscape itemPath)).
  { unfold getDriveItemsByPath_URL.
    destruct (String.eqb drive ""); destruct (String.eqb itemPath ""); cbn [negb].
    - reflexivity.
    - rewrite (resolve_root_path itemPath Hp Hpp). same_string.
    - rewrite (resolve_drive_root drive Hd Hdd).
      same_string.
    - rewrite (resolve_drive_root_path drive itemPath Hd Hdd Hp Hpp).
      same_string. }
  exact (f_equal
           (fun p => mkRequest "GET" (url.mkURL "https" "graph.microsoft.com" p ""))
           Hpath).
Qed.

Lemma resolution_request_address_witness :
  resolutionRequest "" "subdir1/subdir2/foo.json"
  = mkRequest "GET"
      (url.mkURL "https" "graph.microsoft.com"
         "/v1.0/me/drive/root:/subdir1%2Fsubdir2%2Ffoo.json" "").
Proof.
  rewrite (resolution_request_address "" "subdir1/subdir2/foo.json") by discriminate.
  reflexivity.
Defined.

(** The path [..] passes [validatePath] and is a dot segment of the
    reference: its resolution asks for the drive, not for an item. *)
Example dot_dot_resolution :
  validatePath ".." = None
  /\ url.Path (URL (resolutionRequest "" "..")) = "/v1.0/me/drive/".
Proof. split; reflexivity. Qed.

(** ** Valid paths, answers and remote errors *)

(** X22.  For a valid path the prefix trimming of [Open] and [Stat] does
    nothing: the item path that is resolved is the path itself, and the
    empty item path for ["."]. *)
Theorem valid_path_is_item_path (name0 : string) :
  validatePath name0 = None ->
  itemPathOf name0 = (if String.eqb name0 "." then "" else name0).
Proof.
  intros Hv. unfold itemPathOf.
  destruct (String.eqb name0 "."); [ reflexivity | ].
  unfold validatePath in Hv.
  destruct (filepath.IsAbs name0) eqn:Eabs; [ discriminate | ].
  unfold strings.TrimPrefix. unfold filepath.IsAbs in Eabs. rewrite Eabs. reflexivity.
Qed.

Lemma valid_path_is_item_path_witness :
  itemPathOf "subdir1/subdir2/foo.json" = "subdir1/subdir2/foo.json".
Proof.
  exact (valid_path_is_item_path "subdir1/subdir2/foo.json" eq_refl).
Defined.

(** X23.  Below status 400, and but for 204, [doRequest] does not look
    for an error in the body: its result is what decoding the body into
    the target gives, the decoding error included; and an error of the
    transport is returned as it is, nothing being decoded. *)
Theorem doRequest_below_400 (R : Remote) (T : Type)
        (decode : Body -> error + option T) (w : World) (req : Request) :
  (forall resp,
      clientDo Authenticated w req = inr resp ->
      (StatusCode resp < 400)%Z -> StatusCode resp <> 204%Z ->
      snd (doRequest decode w req)
      = match decode (RespBody resp) with
        | inl err => Err err
        | inr v => Ok v
        end)
  /\ (forall err,
         clientDo Authenticated w req = inl err ->
         snd (doRequest decode w req) = Err err).
Proof.
  split.
  - intros resp Hdo Hlt Hne. unfold doRequest, Do. rewrite Hdo.
    assert (E : (StatusCode resp >=? 400)%Z = false).
    { destruct (Z.geb_spec (StatusCode resp) 400); [ lia | reflexivity ]. }
    rewrite E.
    destruct (Z.eqb_spec (StatusCode resp) 204); [ contradiction | ]. simpl.
    destruct (decode (RespBody resp)); reflexivity.
  - intros err Hdo. unfold doRequest, Do. rewrite Hdo. reflexivity.
Qed.

Lemma doRequest_below_400_witness :
  snd (@doRequest unsortedRemote driveItem (@decodeItem unsortedRemote) []
         (resolutionRequest "" ""))
  = Ok (Some (folderItem "root" "onedrivefs_test" true 62)).
Proof.
  rewrite (proj1 (doRequest_below_400 unsortedRemote driveItem
                    (@decodeItem unsortedRemote) [] (resolutionRequest "" ""))
                 (mkResponse 200 "200 OK" []
                    (JSONItem (Some (folderItem "root" "onedrivefs_test" true 62))))
                 eq_refl ltac:(simpl; lia) ltac:(discriminate)).
  reflexivity.
Defined.

(** X24.  A remote error other than [itemNotFound] reaches the caller of
    [Open] and [Stat] as a [*OneDriveAPIError] that [errors.As] finds, with
    the code and the message of the body and the headers of the response,
    so that a throttled caller can read [Retry-After]. *)
Theorem remote_errors_reach_caller (R : Remote) (f : FS) (w : World) (name0 : string)
        (resp : Response Body) (apiErr : OneDriveAPIError) :
  validatePath name0 = None ->
  clientDo Authenticated w (resolutionRequest (DriveID (opts f)) (itemPathOf name0))
  = inr resp ->
  (StatusCode resp >= 400)%Z ->
  decodeError (RespBody resp) = Some (Some apiErr) ->
  Code apiErr <> ItemNotFoundErrorCode ->
  exists err odErr,
    snd (Open f w name0) = Err err
    /\ snd (Stat f w name0) = Err err
    /\ errors_As err = Some odErr
    /\ Code odErr = Code apiErr
    /\ Message odErr = Message apiErr
    /\ ResponseHeader odErr = RespHeader resp.
Proof.
  intros Hv Hdo Hge Hdec Hcode.
  set (odErr := mkAPIError (Code apiErr) (Message apiErr) (LocalizedMessage apiErr)
                           (InnerError_ apiErr) (RespHeader resp)).
  assert (Hres : getDriveItemsByPath w (DriveID (opts f)) (itemPathOf name0)
                 = ((w ++ [(Authenticated,
                            resolutionRequest (DriveID (opts f)) (itemPathOf name0))])%list,
                    Err (ErrAPI odErr))).
  { rewrite getDriveItemsByPath_unfold. unfold doRequest, Do. rewrite Hdo.
    assert (E : (StatusCode resp >=? 400)%Z = true) by (apply Z.geb_le; lia).
    rewrite E, Hdec. reflexivity. }
  assert (Hno : String.eqb (Code odErr) ItemNotFoundErrorCode = false).
  { apply String.eqb_neq. exact Hcode. }
  exists (ErrAPI odErr), odErr.
  split; [ | split ].
  - unfold Open. rewrite Hv. fold (itemPathOf name0). rewrite Hres.
    simpl errors_As. cbv iota. rewrite Hno. reflexivity.
  - rewrite (Stat_valid f w name0 Hv), Hres.
    simpl errors_As. cbv iota. rewrite Hno. reflexivity.
  - repeat split.
Qed.

Lemma remote_errors_reach_caller_witness :
  exists err odErr,
    snd (@Open throttledRemote defaultFS [] "mydir/foo.json") = Err err
    /\ snd (@Stat throttledRemote defaultFS [] "mydir/foo.json") = Err err
    /\ errors_As err = Some odErr
    /\ Code odErr = ActivityLimitReachedErrorCode
    /\ Message odErr = "throttled"
    /\ ResponseHeader odErr = [("Retry-After", ["30"])].
Proof.
  exact (remote_errors_reach_caller throttledRemote defaultFS [] "mydir/foo.json"
           throttledResponse throttled eq_refl eq_refl ltac:(simpl; lia) eq_refl
           ltac:(discriminate)).
Defined.
